(** * robot_v2: vision-driven block picking robot

    A shallow embedding of [vision.py] (perception), [car_controller.py]
    (the actuator commands the controller issues) and [main.py] (the
    finite-state controller), followed by the properties of the written
    specification that were checked against it.

    Modelling conventions.
    - Python [int] is [Z].  Python [float] quantities (contour areas,
      aspect ratios, image moments, clock readings, sleep durations) are
      exact rationals [Q]: the thresholds of the program (0.5, 1.5, 30.0)
      and the values it compares them with are taken without rounding.
    - OpenCV is outside the program.  A mask is represented by what
      [cv2.findContours] and the per-contour measurements report for it; a
      frame by the mask that segmentation yields for each configured colour.
    - Exceptions are explicit: a function that can raise returns [result].
    - The actuator and [time.sleep] calls are recorded, in order, in a trace
      carried by the robot. *)

From Stdlib Require Import ZArith QArith Qminmax Lqa Lia Bool List String.
From Stdlib Require Import Sorting.Sorted Sorting.Permutation.
Import ListNotations.

Set Implicit Arguments.

Local Open Scope string_scope.
Local Open Scope list_scope.
Local Open Scope Z_scope.

(* ================================================================== *)
(** * Python-level helpers *)
(* ================================================================== *)

Module Py.

Inductive PyError : Type :=
| ZeroDivisionError
| ValueError
| AttributeError.

(** Outcome of a call that may raise. *)
Inductive result (A : Type) : Type :=
| Ok (a : A)
| Raise (e : PyError).
Arguments Ok {A} a.
Arguments Raise {A} e.

Definition bind {A B : Type} (m : result A) (k : A -> result B) : result B :=
  match m with
  | Ok a => k a
  | Raise e => Raise e
  end.

(** Strict comparisons on [Q], as booleans. *)
Definition Qltb (a b : Q) : bool := negb (Qle_bool b a).
Definition Qgtb (a b : Q) : bool := Qltb b a.

(** [a / b] on numbers: raises on a zero divisor. *)
Definition truediv (a b : Q) : result Q :=
  if Qeq_bool b 0 then Raise ZeroDivisionError else Ok (a / b)%Q.

(** [int(x)] on a float: truncation towards zero. *)
Definition int (x : Q) : Z := Z.quot (Qnum x) (Zpos (Qden x)).

End Py.

Import Py.

Declare Scope py_scope.
Delimit Scope py_scope with py.
Notation "x <- m ;; k" := (bind m (fun x => k))
  (at level 61, m at next level, right associativity) : py_scope.
Notation "' pat <- m ;; k" := (bind m (fun x => match x with pat => k end))
  (at level 61, pat pattern, m at next level, right associativity) : py_scope.
Local Open Scope py_scope.

(* ================================================================== *)
(** * vision.py *)
(* ================================================================== *)

Module Vision.

(** [@dataclass DetectedObject] *)
Record DetectedObject : Type := mkDetectedObject {
  color : string;
  center_x : Z;
  center_y : Z;
  area : Q;
  bbox : Z * Z * Z * Z;          (* (x, y, width, height) *)
  aspect_ratio : Q
}.

(** One contour of [cv2.findContours], with the three measurements the
    program takes of it: [cv2.contourArea], [cv2.boundingRect] and the
    moments [m00], [m10], [m01] of [cv2.moments]. *)
Record Contour : Type := mkContour {
  contourArea : Q;
  boundingRect : Z * Z * Z * Z;
  m00 : Q;
  m10 : Q;
  m01 : Q
}.

(** A binary mask, seen through [cv2.findContours(mask, RETR_EXTERNAL, ..)]. *)
Definition Mask : Type := list Contour.

(** A frame, seen through segmentation: the mask obtained for a colour.
    It stands for a frame on which [preprocess_frame] and the OpenCV calls
    of [create_color_mask] succeed; an error raised inside OpenCV on a
    malformed array is outside this model. *)
Definition Frame : Type := string -> Mask.

Definition HSV : Type := (Z * Z * Z)%type.

(** The attributes [VisionSystem.__init__] sets and the methods read. *)
Record VisionSystem : Type := mkVisionSystem {
  color_ranges : list (string * list (HSV * HSV));
  block_min_area : Q;
  block_max_area : Q;
  sheet_min_area : Q;
  sheet_max_area : Q;
  block_aspect_ratio_range : Q * Q;
  sheet_aspect_ratio_range : Q * Q;
  frame_center_x : Z;
  frame_center_y : Z
}.

(** [VisionSystem(camera_index=0, resolution=(640, 480))] *)
Definition default_vision : VisionSystem := {|
  color_ranges :=
    [ ("red",    [ ((0, 100, 100), (10, 255, 255));
                   ((160, 100, 100), (180, 255, 255)) ]);
      ("yellow", [ ((20, 100, 100), (35, 255, 255)) ]);
      ("blue",   [ ((100, 100, 80), (130, 255, 255)) ]);
      ("black",  [ ((0, 0, 0), (180, 255, 50)) ]) ];
  block_min_area := 300;
  block_max_area := 5000;
  sheet_min_area := 8000;
  sheet_max_area := 100000;
  block_aspect_ratio_range := (5 # 10, 2)%Q;
  sheet_aspect_ratio_range := (3 # 10, 9 # 10)%Q;
  frame_center_x := 640 / 2;
  frame_center_y := 480 / 2
|}.

Inductive Direction : Type := left | right | centered.
Inductive Distance : Type := too_close | good | too_far.

(** [color in self.color_ranges] *)
Definition color_supported (vs : VisionSystem) (c : string) : bool :=
  existsb (fun kv => String.eqb c (fst kv)) (color_ranges vs).

(** [create_color_mask]: fails on an unconfigured colour; otherwise the
    mask is computed by OpenCV from the frame. *)
Definition create_color_mask (vs : VisionSystem) (hsv_frame : Frame)
    (c : string) : result Mask :=
  if color_supported vs c then Ok (hsv_frame c) else Raise ValueError.

(** Body of the loop of [extract_objects_from_mask] for one contour:
    [None] stands for [continue], [Some obj] for [objects.append(obj)]. *)
Definition extract_contour (c : string) (min_area max_area : Q)
    (aspect_ratio_range : Q * Q) (contour : Contour)
    : result (option DetectedObject) :=
  let a := contourArea contour in
  if Qltb a min_area || Qgtb a max_area then Ok None
  else
    let '(x, y, w, h) := boundingRect contour in
    ar <- (if h >? 0 then truediv (inject_Z w) (inject_Z h) else Ok 0%Q) ;;
    if Qltb ar (fst aspect_ratio_range) || Qgtb ar (snd aspect_ratio_range)
    then Ok None
    else
      '(cx, cy) <-
        (if negb (Qeq_bool (m00 contour) 0) then
           qx <- truediv (m10 contour) (m00 contour) ;;
           qy <- truediv (m01 contour) (m00 contour) ;;
           Ok (int qx, int qy)
         else Ok (x + w / 2, y + h / 2)) ;;
      Ok (Some {| color := c; center_x := cx; center_y := cy; area := a;
                  bbox := (x, y, w, h); aspect_ratio := ar |}).

(** The [for contour in contours] loop, accumulating [objects]. *)
Fixpoint extract_loop (c : string) (min_area max_area : Q)
    (aspect_ratio_range : Q * Q) (contours : list Contour)
    (objects : list DetectedObject) : result (list DetectedObject) :=
  match contours with
  | [] => Ok objects
  | contour :: rest =>
      o <- extract_contour c min_area max_area aspect_ratio_range contour ;;
      extract_loop c min_area max_area aspect_ratio_range rest
        (match o with Some obj => objects ++ [obj] | None => objects end)
  end.

(** [list.sort(key=lambda o: o.area, reverse=True)]: a stable sort by
    descending area.  [insert_desc] places an object in front of the first
    element whose area is not larger, so that objects of equal area keep
    their order. *)
Fixpoint insert_desc (o : DetectedObject) (l : list DetectedObject)
    : list DetectedObject :=
  match l with
  | [] => [o]
  | p :: l' =>
      if Qle_bool (area p) (area o) then o :: p :: l'
      else p :: insert_desc o l'
  end.

Fixpoint sort_by_area_desc (l : list DetectedObject) : list DetectedObject :=
  match l with
  | [] => []
  | o :: l' => insert_desc o (sort_by_area_desc l')
  end.

Definition extract_objects_from_mask (mask : Mask) (c : string)
    (min_area max_area : Q) (aspect_ratio_range : Q * Q)
    : result (list DetectedObject) :=
  objects <- extract_loop c min_area max_area aspect_ratio_range mask [] ;;
  Ok (sort_by_area_desc objects).

(** The [for color in colors] loop shared by the two detectors. *)
Fixpoint detect_loop (vs : VisionSystem) (min_area max_area : Q)
    (aspect_ratio_range : Q * Q) (hsv_frame : Frame) (colors : list string)
    (all_objects : list DetectedObject) : result (list DetectedObject) :=
  match colors with
  | [] => Ok all_objects
  | c :: rest =>
      mask <- create_color_mask vs hsv_frame c ;;
      objs <- extract_objects_from_mask mask c min_area max_area
                aspect_ratio_range ;;
      detect_loop vs min_area max_area aspect_ratio_range hsv_frame rest
        (all_objects ++ objs)
  end.

Definition default_block_colors : list string := ["red"; "yellow"; "blue"].
Definition default_sheet_colors : list string :=
  ["black"; "red"; "yellow"; "blue"].

Definition detect_small_blocks (vs : VisionSystem) (frame : Frame)
    (colors : list string) : result (list DetectedObject) :=
  all_blocks <- detect_loop vs (block_min_area vs) (block_max_area vs)
                  (block_aspect_ratio_range vs) frame colors [] ;;
  Ok (sort_by_area_desc all_blocks).

Definition detect_sheets (vs : VisionSystem) (frame : Frame)
    (colors : list string) : result (list DetectedObject) :=
  all_sheets <- detect_loop vs (sheet_min_area vs) (sheet_max_area vs)
                  (sheet_aspect_ratio_range vs) frame colors [] ;;
  Ok (sort_by_area_desc all_sheets).

Definition center_threshold : Z := 30.

Definition calculate_alignment_error (vs : VisionSystem)
    (obj : DetectedObject) : Z * Direction :=
  let error := center_x obj - frame_center_x vs in
  if Z.abs error <? center_threshold then (error, centered)
  else if error >? 0 then (error, right)
  else (error, left).

Definition estimate_distance (obj : DetectedObject) (reference_area : Q)
    : result Distance :=
  area_ratio <- truediv (area obj) reference_area ;;
  if Qgtb area_ratio (15 # 10) then Ok too_close
  else if Qltb area_ratio (5 # 10) then Ok too_far
  else Ok good.

End Vision.

Import Vision.

(* ================================================================== *)
(** * car_controller.py *)
(* ================================================================== *)

Module Car.

(** What a call on the car does, as seen from outside: commands handed to
    [send_command] and blocking [time.sleep] calls. *)
Inductive Event : Type :=
| Send (command : string)
| Sleep (seconds : Q).

Definition stop : list Event := [Send "S"; Sleep (1 # 10)].

Definition forward (duration : Q) : list Event :=
  [Send "A"; Sleep duration] ++ stop.
Definition backward (duration : Q) : list Event :=
  [Send "B"; Sleep duration] ++ stop.
Definition turn_left (duration : Q) : list Event :=
  [Send "L"; Sleep duration] ++ stop.
Definition turn_right (duration : Q) : list Event :=
  [Send "R"; Sleep duration] ++ stop.
Definition rotate_clockwise (duration : Q) : list Event :=
  [Send "rC"; Sleep duration] ++ stop.

Definition grab_block : list Event := [Send "go"; Sleep 4].
Definition release_block : list Event := [Send "rel"; Sleep (15 # 10)].

Definition align_to_target (direction : Direction) (error : Z)
    : list Event :=
  match direction with
  | centered => []
  | left =>
      turn_left (Qmin ((1 # 10) + inject_Z (Z.abs error) / 500) (5 # 10))
  | right =>
      turn_right (Qmin ((1 # 10) + inject_Z (Z.abs error) / 500) (5 # 10))
  end.

End Car.

(* ================================================================== *)
(** * main.py *)
(* ================================================================== *)

Module Controller.

Inductive RobotState : Type :=
| FIND_BLOCK
| GRAB_BLOCK
| ALIGN_TO_TARGET_SHEET
| DROP_BLOCK
| IDLE.

Definition RobotState_eqb (a b : RobotState) : bool :=
  match a, b with
  | FIND_BLOCK, FIND_BLOCK
  | GRAB_BLOCK, GRAB_BLOCK
  | ALIGN_TO_TARGET_SHEET, ALIGN_TO_TARGET_SHEET
  | DROP_BLOCK, DROP_BLOCK
  | IDLE, IDLE => true
  | _, _ => false
  end.

(** The mutable attributes of [BlockPickingRobot], and the trace of what it
    has asked of the car and of [time.sleep] so far. *)
Record Robot : Type := mkRobot {
  current_state : RobotState;
  previous_state : option RobotState;
  current_block_color : option string;
  blocks_processed : Z;
  state_start_time : Q;
  search_attempts : Z;
  trace : list Car.Event
}.

(** Attributes set once in [__init__]. *)
Definition state_timeout : Q := 30.
Definition max_search_attempts : Z := 20.
Definition alignment_tolerance : Z := 40.

(** State after [__init__], the clock reading [now] at that moment. *)
Definition init (now : Q) : Robot := {|
  current_state := FIND_BLOCK;
  previous_state := None;
  current_block_color := None;
  blocks_processed := 0;
  state_start_time := now;
  search_attempts := 0;
  trace := [Car.Send "50"; Car.Sleep (1 # 10)]
|}.

(** Attribute assignments. *)
Definition set_current_block_color (c : option string) (r : Robot) : Robot :=
  {| current_state := current_state r;
     previous_state := previous_state r;
     current_block_color := c;
     blocks_processed := blocks_processed r;
     state_start_time := state_start_time r;
     search_attempts := search_attempts r;
     trace := trace r |}.

Definition set_blocks_processed (n : Z) (r : Robot) : Robot :=
  {| current_state := current_state r;
     previous_state := previous_state r;
     current_block_color := current_block_color r;
     blocks_processed := n;
     state_start_time := state_start_time r;
     search_attempts := search_attempts r;
     trace := trace r |}.

Definition set_search_attempts (n : Z) (r : Robot) : Robot :=
  {| current_state := current_state r;
     previous_state := previous_state r;
     current_block_color := current_block_color r;
     blocks_processed := blocks_processed r;
     state_start_time := state_start_time r;
     search_attempts := n;
     trace := trace r |}.

(** Calls on the car and [time.sleep]. *)
Definition emit (es : list Car.Event) (r : Robot) : Robot :=
  {| current_state := current_state r;
     previous_state := previous_state r;
     current_block_color := current_block_color r;
     blocks_processed := blocks_processed r;
     state_start_time := state_start_time r;
     search_attempts := search_attempts r;
     trace := trace r ++ es |}.

(** [change_state]; [now] is the reading of [time.time()] it takes. *)
Definition change_state (now : Q) (new_state : RobotState) (r : Robot)
    : Robot :=
  {| current_state := new_state;
     previous_state := Some (current_state r);
     current_block_color := current_block_color r;
     blocks_processed := blocks_processed r;
     state_start_time := now;
     search_attempts := search_attempts r;
     trace := trace r |}.

(** [check_timeout]; [now] is the reading of [time.time()] it takes. *)
Definition check_timeout (now : Q) (r : Robot) : bool :=
  let elapsed := (now - state_start_time r)%Q in
  Qgtb elapsed state_timeout.

Section WithVision.

Variable vs : VisionSystem.

(** The branch taken by both searching states when nothing is detected. *)
Definition search_step (r : Robot) : Robot * bool :=
  let r := set_search_attempts (search_attempts r + 1) r in
  if search_attempts r >? max_search_attempts then
    let r := set_search_attempts 0 r in
    (emit [Car.Sleep 2] r, false)
  else
    let r := emit (Car.rotate_clockwise (3 # 10)) r in
    (emit [Car.Sleep (3 # 10)] r, false).

Definition state_find_block (frame : Frame) (r : Robot)
    : result (Robot * bool) :=
  blocks <- detect_small_blocks vs frame default_block_colors ;;
  match blocks with
  | [] => Ok (search_step r)
  | block :: _ =>
      let r := set_search_attempts 0 r in
      let r := set_current_block_color (Some (color block)) r in
      let '(error, direction) := calculate_alignment_error vs block in
      if Z.abs error >? alignment_tolerance then
        let r := emit (Car.align_to_target direction error) r in
        Ok (emit [Car.Sleep (2 # 10)] r, false)
      else Ok (r, true)
  end.

(** [self.current_block_color.upper()] needs a string. *)
Definition state_grab_block (r : Robot) : result (Robot * bool) :=
  match current_block_color r with
  | None => Raise AttributeError
  | Some _ =>
      let r := emit Car.grab_block r in
      let r := set_blocks_processed (blocks_processed r + 1) r in
      Ok (r, true)
  end.

(** With no colour held, [detect_sheets(frame, colors=[None])] fails in
    [create_color_mask], [None] being no key of [color_ranges]. *)
Definition state_align_to_target_sheet (frame : Frame) (r : Robot)
    : result (Robot * bool) :=
  match current_block_color r with
  | None => Raise ValueError
  | Some held =>
      sheets <- detect_sheets vs frame [held] ;;
      match sheets with
      | [] => Ok (search_step r)
      | target_sheet :: _ =>
          let r := set_search_attempts 0 r in
          let '(error, direction) :=
            calculate_alignment_error vs target_sheet in
          distance <- estimate_distance target_sheet 20000 ;;
          if Z.abs error >? alignment_tolerance then
            let r := emit (Car.align_to_target direction error) r in
            Ok (emit [Car.Sleep (2 # 10)] r, false)
          else
            match distance with
            | too_far =>
                let r := emit (Car.forward (4 # 10)) r in
                Ok (emit [Car.Sleep (2 # 10)] r, false)
            | too_close =>
                let r := emit (Car.backward (3 # 10)) r in
                Ok (emit [Car.Sleep (2 # 10)] r, false)
            | good => Ok (r, true)
            end
      end
  end.

Definition state_drop_block (r : Robot) : result (Robot * bool) :=
  match current_block_color r with
  | None => Raise AttributeError
  | Some _ =>
      let r := emit Car.release_block r in
      let r := set_current_block_color None r in
      Ok (r, true)
  end.

Definition state_idle (r : Robot) : Robot * bool := (r, false).

(** What one tick receives from outside: the frame, and the clock
    readings of [check_timeout] and of [change_state], should the tick
    call them. *)
Record Tick : Type := mkTick {
  frame : Frame;
  clock_check : Q;
  clock_change : Q
}.

Definition run_state_machine (t : Tick) (r : Robot) : result Robot :=
  if negb (RobotState_eqb (current_state r) IDLE)
     && check_timeout (clock_check t) r
  then Ok (change_state (clock_change t) FIND_BLOCK r)
  else
    match current_state r with
    | FIND_BLOCK =>
        '(r, state_complete) <- state_find_block (frame t) r ;;
        Ok (if state_complete : bool
            then change_state (clock_change t) GRAB_BLOCK r else r)
    | GRAB_BLOCK =>
        '(r, state_complete) <- state_grab_block r ;;
        Ok (if state_complete : bool
            then change_state (clock_change t) ALIGN_TO_TARGET_SHEET r
            else r)
    | ALIGN_TO_TARGET_SHEET =>
        '(r, state_complete) <- state_align_to_target_sheet (frame t) r ;;
        Ok (if state_complete : bool
            then change_state (clock_change t) DROP_BLOCK r else r)
    | DROP_BLOCK =>
        '(r, state_complete) <- state_drop_block r ;;
        Ok (if state_complete : bool
            then change_state (clock_change t) IDLE r else r)
    | IDLE =>
        let '(r, _) := state_idle r in Ok r
    end.

(** Keys read by the main loop after each tick. *)
Inductive Key : Type := key_q | key_c | key_r | key_other.

(** The keyboard handling of [run] for the keys that do not quit;
    [now] is the clock reading of [change_state]. *)
Definition handle_key (now : Q) (k : Key) (r : Robot) : Robot :=
  match k with
  | key_c =>
      if RobotState_eqb (current_state r) IDLE
      then change_state now FIND_BLOCK r else r
  | key_r => change_state now FIND_BLOCK (set_current_block_color None r)
  | key_q | key_other => r
  end.

(** One pass of the [while True] loop of [run] on a captured frame: the
    two detections made for display, the tick, the key. *)
Definition loop_iteration (t : Tick) (now_key : Q) (k : Key) (r : Robot)
    : result Robot :=
  _ <- detect_small_blocks vs (frame t) default_block_colors ;;
  _ <- detect_sheets vs (frame t) default_sheet_colors ;;
  r <- run_state_machine t r ;;
  Ok (handle_key now_key k r).

(** States the robot can be in at the top of the loop. *)
Inductive reachable : Robot -> Prop :=
| reachable_init : forall now, reachable (init now)
| reachable_step : forall t now_key k r r',
    reachable r ->
    k <> key_q ->
    loop_iteration t now_key k r = Ok r' ->
    reachable r'.

End WithVision.

End Controller.

(* ================================================================== *)
(** * Vocabulary of the properties *)
(* ================================================================== *)

Module Props.

Import Controller.

Local Open Scope Q_scope.

(** [area_ge a b]: [a] may stand before [b] in a detection result. *)
Definition area_ge (a b : DetectedObject) : Prop := area b <= area a.

(** [has_area k o]: the sort key of [o] is [k]. *)
Definition has_area (k : Q) (o : DetectedObject) : bool :=
  Qeq_bool (area o) k.

(** The aspect ratio [extract_objects_from_mask] assigns to a bounding box. *)
Definition box_ratio (box : Z * Z * Z * Z) : Q :=
  let '(_, _, w, h) := box in
  if (h >? 0)%Z then inject_Z w / inject_Z h else 0.

(** An object that passed the filter of one of the given contours. *)
Definition kept_from (c : string) (min_area max_area : Q) (range : Q * Q)
    (contours : list Contour) (obj : DetectedObject) : Prop :=
  exists contour,
    In contour contours /\
    extract_contour c min_area max_area range contour = Ok (Some obj).

(** What the state says about the held colour. *)
Definition color_inv (r : Robot) : Prop :=
  match current_state r with
  | GRAB_BLOCK | ALIGN_TO_TARGET_SHEET | DROP_BLOCK =>
      current_block_color r <> None
  | IDLE => current_block_color r = None
  | FIND_BLOCK => True
  end.

(** The state that follows on the round FIND_BLOCK, GRAB_BLOCK,
    ALIGN_TO_TARGET_SHEET, DROP_BLOCK, IDLE. *)
Definition successor (s : RobotState) : RobotState :=
  match s with
  | FIND_BLOCK => GRAB_BLOCK
  | GRAB_BLOCK => ALIGN_TO_TARGET_SHEET
  | ALIGN_TO_TARGET_SHEET => DROP_BLOCK
  | DROP_BLOCK => IDLE
  | IDLE => IDLE
  end.

(** How often [cmd] was handed to [send_command]. *)
Fixpoint count_sent (cmd : string) (es : list Car.Event) : nat :=
  match es with
  | [] => 0%nat
  | Car.Send c :: es' =>
      if String.eqb c cmd then S (count_sent cmd es') else count_sent cmd es'
  | Car.Sleep _ :: es' => count_sent cmd es'
  end.

(** How many commands were handed to [send_command]. *)
Fixpoint sends (es : list Car.Event) : nat :=
  match es with
  | [] => 0%nat
  | Car.Send _ :: es' => S (sends es')
  | Car.Sleep _ :: es' => sends es'
  end.

(** Time spent in [time.sleep]. *)
Fixpoint blocking_time (es : list Car.Event) : Q :=
  match es with
  | [] => 0
  | Car.Send _ :: es' => blocking_time es'
  | Car.Sleep d :: es' => d + blocking_time es'
  end.

(** Traces in which every motion command is followed, after one sleep, by
    the stop command and its settle time; the arm sequences and the speed
    setting are followed by their sleep. *)
Inductive settled : list Car.Event -> Prop :=
| settled_nil : settled []
| settled_sleep : forall d es, settled es -> settled (Car.Sleep d :: es)
| settled_pulse : forall cmd d es,
    In cmd ["A"; "B"; "L"; "R"; "rC"] ->
    settled es ->
    settled (Car.Send cmd :: Car.Sleep d
             :: Car.Send "S" :: Car.Sleep (1 # 10) :: es)
| settled_sequence : forall cmd d es,
    In cmd ["go"; "rel"; "50"] ->
    settled es ->
    settled (Car.Send cmd :: Car.Sleep d :: es).

(** The held colour, if any, is one of the block colours searched for. *)
Definition color_known (r : Robot) : Prop :=
  match current_block_color r with
  | None => True
  | Some c => In c default_block_colors
  end.

(** Consecutive ticks, stopping at the first exception. *)
Fixpoint run_ticks (vs : VisionSystem) (ts : list Tick) (r : Robot)
    : result Robot :=
  match ts with
  | [] => Ok r
  | t :: ts' => r1 <- run_state_machine vs t r ;; run_ticks vs ts' r1
  end.

(** The branches of [run_state_machine], each with the condition under
    which it is taken and the robot it leaves. *)
Inductive tick_outcome (vs : VisionSystem) (t : Tick) (r : Robot)
    : Robot -> Prop :=
| out_timeout :
    current_state r <> IDLE ->
    state_timeout < clock_check t - state_start_time r ->
    tick_outcome vs t r (change_state (clock_change t) FIND_BLOCK r)
| out_find_miss :
    current_state r = FIND_BLOCK ->
    detect_small_blocks vs (frame t) default_block_colors = Ok [] ->
    tick_outcome vs t r (fst (search_step r))
| out_find_turn : forall block rest error direction,
    current_state r = FIND_BLOCK ->
    detect_small_blocks vs (frame t) default_block_colors
    = Ok (block :: rest) ->
    calculate_alignment_error vs block = (error, direction) ->
    (alignment_tolerance < Z.abs error)%Z ->
    tick_outcome vs t r
      (emit [Car.Sleep (2 # 10)]
         (emit (Car.align_to_target direction error)
            (set_current_block_color (Some (color block))
               (set_search_attempts 0 r))))
| out_find_done : forall block rest error direction,
    current_state r = FIND_BLOCK ->
    detect_small_blocks vs (frame t) default_block_colors
    = Ok (block :: rest) ->
    calculate_alignment_error vs block = (error, direction) ->
    (Z.abs error <= alignment_tolerance)%Z ->
    tick_outcome vs t r
      (change_state (clock_change t) GRAB_BLOCK
         (set_current_block_color (Some (color block))
            (set_search_attempts 0 r)))
| out_grab : forall held,
    current_state r = GRAB_BLOCK ->
    current_block_color r = Some held ->
    tick_outcome vs t r
      (change_state (clock_change t) ALIGN_TO_TARGET_SHEET
         (set_blocks_processed (blocks_processed r + 1)
            (emit Car.grab_block r)))
| out_align_miss : forall held,
    current_state r = ALIGN_TO_TARGET_SHEET ->
    current_block_color r = Some held ->
    detect_sheets vs (frame t) [held] = Ok [] ->
    tick_outcome vs t r (fst (search_step r))
| out_align_turn : forall held sheet rest error direction,
    current_state r = ALIGN_TO_TARGET_SHEET ->
    current_block_color r = Some held ->
    detect_sheets vs (frame t) [held] = Ok (sheet :: rest) ->
    calculate_alignment_error vs sheet = (error, direction) ->
    (alignment_tolerance < Z.abs error)%Z ->
    tick_outcome vs t r
      (emit [Car.Sleep (2 # 10)]
         (emit (Car.align_to_target direction error)
            (set_search_attempts 0 r)))
| out_align_forward : forall held sheet rest error direction,
    current_state r = ALIGN_TO_TARGET_SHEET ->
    current_block_color r = Some held ->
    detect_sheets vs (frame t) [held] = Ok (sheet :: rest) ->
    calculate_alignment_error vs sheet = (error, direction) ->
    (Z.abs error <= alignment_tolerance)%Z ->
    estimate_distance sheet 20000 = Ok too_far ->
    tick_outcome vs t r
      (emit [Car.Sleep (2 # 10)]
         (emit (Car.forward (4 # 10)) (set_search_attempts 0 r)))
| out_align_backward : forall held sheet rest error direction,
    current_state r = ALIGN_TO_TARGET_SHEET ->
    current_block_color r = Some held ->
    detect_sheets vs (frame t) [held] = Ok (sheet :: rest) ->
    calculate_alignment_error vs sheet = (error, direction) ->
    (Z.abs error <= alignment_tolerance)%Z ->
    estimate_distance sheet 20000 = Ok too_close ->
    tick_outcome vs t r
      (emit [Car.Sleep (2 # 10)]
         (emit (Car.backward (3 # 10)) (set_search_attempts 0 r)))
| out_align_done : forall held sheet rest error direction,
    current_state r = ALIGN_TO_TARGET_SHEET ->
    current_block_color r = Some held ->
    detect_sheets vs (frame t) [held] = Ok (sheet :: rest) ->
    calculate_alignment_error vs sheet = (error, direction) ->
    (Z.abs error <= alignment_tolerance)%Z ->
    estimate_distance sheet 20000 = Ok good ->
    tick_outcome vs t r
      (change_state (clock_change t) DROP_BLOCK (set_search_attempts 0 r))
| out_drop : forall held,
    current_state r = DROP_BLOCK ->
    current_block_color r = Some held ->
    tick_outcome vs t r
      (change_state (clock_change t) IDLE
         (set_current_block_color None (emit Car.release_block r)))
| out_idle :
    current_state r = IDLE ->
    tick_outcome vs t r r.

(** The filter of [extract_objects_from_mask], as a test on the contour. *)
Definition passes (min_area max_area : Q) (range : Q * Q)
    (contour : Contour) : bool :=
  Qle_bool min_area (contourArea contour)
  && Qle_bool (contourArea contour) max_area
  && Qle_bool (fst range) (box_ratio (boundingRect contour))
  && Qle_bool (box_ratio (boundingRect contour)) (snd range).

(** The list [extract_objects_from_mask] returns, it being known not to
    raise. *)
Definition extracted (mask : Mask) (c : string) (min_area max_area : Q)
    (range : Q * Q) : list DetectedObject :=
  match extract_objects_from_mask mask c min_area max_area range with
  | Ok objs => objs
  | Raise _ => []
  end.

(** [tick_events r r' es]: going from [r] to [r'], a tick added [es] to the
    trace; what this says about the events and the counter of blocks. *)
Definition tick_events (r r' : Robot) (es : list Car.Event) : Prop :=
  trace r' = trace r ++ es /\
  settled es /\
  (sends es <= 2)%nat /\
  0 <= blocking_time es <= 4 /\
  blocks_processed r'
  = (blocks_processed r + Z.of_nat (count_sent "go" es))%Z /\
  (count_sent "go" es = 0%nat /\
   (current_state r' = ALIGN_TO_TARGET_SHEET ->
    current_state r = ALIGN_TO_TARGET_SHEET) \/
   count_sent "go" es = 1%nat /\ count_sent "rel" es = 0%nat /\
   current_state r = GRAB_BLOCK /\
   current_state r' = ALIGN_TO_TARGET_SHEET) /\
  (count_sent "rel" es = 0%nat /\
   (current_state r' = IDLE -> current_state r = IDLE) \/
   count_sent "rel" es = 1%nat /\ count_sent "go" es = 0%nat /\
   current_state r = DROP_BLOCK /\ current_state r' = IDLE).

(** Proof of [settled] for a trace written out. *)
Ltac settle :=
  repeat first
    [ apply settled_nil
    | apply settled_sleep
    | apply settled_pulse; [cbn; tauto|]
    | apply settled_sequence; [cbn; tauto|] ].

End Props.

(* ================================================================== *)
(** * Sample inputs *)
(* ================================================================== *)

Module Samples.

Import Controller.

Local Open Scope Q_scope.

(** A red object of area [a] in the middle of the frame. *)
Definition sheet_of_area (a : Q) : DetectedObject :=
  {| color := "red"; center_x := 320; center_y := 240; area := a;
     bbox := (280, 180, 80, 120)%Z; aspect_ratio := 80 # 120 |}.

(** A contour of area [a] with its centroid at (300, 200). *)
Definition region (a : Q) (box : Z * Z * Z * Z) : Contour :=
  {| contourArea := a; boundingRect := box;
     m00 := a; m10 := a * 300; m01 := a * 200 |}.

(** A frame with two red regions and one blue region of block size, and a
    red region of sheet size. *)
Definition sample_frame : Frame :=
  fun c =>
    if String.eqb c "red" then
      [ region 400 (290, 190, 20, 20)%Z; region 900 (285, 185, 30, 30)%Z;
        region 12000 (250, 100, 100, 120)%Z ]
    else if String.eqb c "blue" then [ region 650 (100, 180, 25, 26)%Z ]
    else [].

(** A contour whose bounding box has no height. *)
Definition flat_contour : Contour :=
  {| contourArea := 400; boundingRect := (100, 200, 40, 0)%Z;
     m00 := 0; m10 := 0; m01 := 0 |}.

(** A tick on frame [f] with the given clock readings. *)
Definition tick (f : Frame) (check change : Q) : Tick :=
  {| frame := f; clock_check := check; clock_change := change |}.

(** Nothing in sight. *)
Definition empty_frame : Frame := fun _ => [].

(** One blue block, 180 pixels right of the frame centre. *)
Definition off_centre_frame : Frame :=
  fun c =>
    if String.eqb c "blue" then
      [ {| contourArea := 650; boundingRect := (488, 187, 25, 26)%Z;
           m00 := 650; m10 := 650 * 500; m01 := 650 * 200 |} ]
    else [].

(** Robots met along sample runs of the controller under [default_vision],
    starting from [init 0] and with no key pressed. *)

(** After one tick on [empty_frame]. *)
Definition searching : Robot := {|
  current_state := FIND_BLOCK;
  previous_state := None;
  current_block_color := None;
  blocks_processed := 0;
  state_start_time := 0;
  search_attempts := 1;
  trace := [Car.Send "50"; Car.Sleep (1 # 10); Car.Send "rC";
            Car.Sleep (3 # 10); Car.Send "S"; Car.Sleep (1 # 10);
            Car.Sleep (3 # 10)]
|}.

(** After one tick on [off_centre_frame]. *)
Definition turning : Robot := {|
  current_state := FIND_BLOCK;
  previous_state := None;
  current_block_color := Some "blue";
  blocks_processed := 0;
  state_start_time := 0;
  search_attempts := 0;
  trace := [Car.Send "50"; Car.Sleep (1 # 10); Car.Send "R";
            Car.Sleep (Qmin ((1 # 10) + 180 / 500) (5 # 10));
            Car.Send "S"; Car.Sleep (1 # 10); Car.Sleep (2 # 10)]
|}.

(** After one tick on [sample_frame]: aligned to the larger red block. *)
Definition grabbing : Robot := {|
  current_state := GRAB_BLOCK;
  previous_state := Some FIND_BLOCK;
  current_block_color := Some "red";
  blocks_processed := 0;
  state_start_time := 2;
  search_attempts := 0;
  trace := [Car.Send "50"; Car.Sleep (1 # 10)]
|}.

(** [grabbing], timed out before the grab was made. *)
Definition gave_up : Robot := {|
  current_state := FIND_BLOCK;
  previous_state := Some GRAB_BLOCK;
  current_block_color := Some "red";
  blocks_processed := 0;
  state_start_time := 34;
  search_attempts := 0;
  trace := [Car.Send "50"; Car.Sleep (1 # 10)]
|}.

(** After the grab and the alignment to the red sheet of [sample_frame]. *)
Definition dropping : Robot := {|
  current_state := DROP_BLOCK;
  previous_state := Some ALIGN_TO_TARGET_SHEET;
  current_block_color := Some "red";
  blocks_processed := 1;
  state_start_time := 10;
  search_attempts := 0;
  trace := [Car.Send "50"; Car.Sleep (1 # 10); Car.Send "go"; Car.Sleep 4]
|}.

(** [by_iteration t r]: the goal is reached from [r] by one pass of the loop
    on tick [t], no key being pressed. *)
Ltac by_iteration t r :=
  apply (@reachable_step default_vision t 0 key_other r);
  [ | discriminate | vm_compute; reflexivity ].

End Samples.

(* ================================================================== *)
(** * Properties of the perception functions *)
(* ================================================================== *)

Module VisionFacts.

Import Props Samples.

Local Open Scope Q_scope.

(** ** Comparisons and the error monad *)

Lemma Qltb_lt (a b : Q) : Qltb a b = true <-> a < b.
Proof.
  unfold Qltb. rewrite negb_true_iff, <- not_true_iff_false, Qle_bool_iff.
  split; [apply Qnot_le_lt | apply Qlt_not_le].
Qed.

Lemma Qltb_ge (a b : Q) : Qltb a b = false <-> b <= a.
Proof.
  unfold Qltb. rewrite negb_false_iff. apply Qle_bool_iff.
Qed.

Lemma Qgtb_gt (a b : Q) : Qgtb a b = true <-> b < a.
Proof. apply Qltb_lt. Qed.

Lemma Qgtb_le (a b : Q) : Qgtb a b = false <-> a <= b.
Proof. apply Qltb_ge. Qed.

Lemma truediv_nonzero (a b : Q) : ~ b == 0 -> truediv a b = Ok (a / b).
Proof.
  intros Hb. unfold truediv.
  destruct (Qeq_bool b 0) eqn:E; [|reflexivity].
  apply Qeq_bool_eq in E. contradiction.
Qed.

Lemma bind_Ok_inv {A B : Type} (m : result A) (k : A -> result B) (b : B) :
  bind m k = Ok b -> exists a, m = Ok a /\ k a = Ok b.
Proof.
  destruct m as [a|e]; simpl; intros H; [eauto | discriminate].
Qed.

(** ** The order of detection results *)

Lemma insert_desc_perm (o : DetectedObject) (l : list DetectedObject) :
  Permutation (o :: l) (insert_desc o l).
Proof.
  induction l as [|p l IH]; simpl.
  - apply Permutation_refl.
  - destruct (Qle_bool (area p) (area o)).
    + apply Permutation_refl.
    + eapply perm_trans; [apply perm_swap|]. now apply perm_skip.
Qed.

Lemma sort_by_area_desc_perm (l : list DetectedObject) :
  Permutation l (sort_by_area_desc l).
Proof.
  induction l as [|o l IH]; simpl.
  - apply perm_nil.
  - eapply perm_trans; [apply perm_skip, IH | apply insert_desc_perm].
Qed.

Lemma insert_desc_sorted (o : DetectedObject) (l : list DetectedObject) :
  StronglySorted area_ge l -> StronglySorted area_ge (insert_desc o l).
Proof.
  induction 1 as [|p l Hl IH Hp]; simpl.
  - constructor; constructor.
  - destruct (Qle_bool (area p) (area o)) eqn:E.
    + apply Qle_bool_iff in E.
      constructor; [now constructor|].
      constructor; [exact E|].
      eapply Forall_impl; [|exact Hp].
      unfold area_ge. intros q Hq. now apply Qle_trans with (area p).
    + constructor; [exact IH|].
      apply (Permutation_Forall (insert_desc_perm o l)).
      constructor; [|exact Hp].
      unfold area_ge. apply Qlt_le_weak, Qnot_le_lt.
      rewrite <- Qle_bool_iff, E. discriminate.
Qed.

Lemma sort_by_area_desc_sorted (l : list DetectedObject) :
  StronglySorted area_ge (sort_by_area_desc l).
Proof.
  induction l as [|o l IH]; simpl.
  - constructor.
  - now apply insert_desc_sorted.
Qed.

(** Stability: among the objects of any one area, the order is kept.  A
    stable sort is determined by this together with sortedness, which is why
    the insertion sort of the model stands for [list.sort]. *)
Lemma insert_desc_stable (k : Q) (o : DetectedObject)
    (l : list DetectedObject) :
  filter (has_area k) (insert_desc o l) = filter (has_area k) (o :: l).
Proof.
  induction l as [|p l IH]; [reflexivity|].
  cbn [insert_desc].
  destruct (Qle_bool (area p) (area o)) eqn:E; [reflexivity|].
  cbn [filter] in *. rewrite IH.
  destruct (has_area k o) eqn:Eo; [|reflexivity].
  destruct (has_area k p) eqn:Ep; [|reflexivity].
  exfalso. unfold has_area in *.
  apply Qeq_bool_eq in Eo, Ep.
  assert (Hle : area p <= area o) by (rewrite Eo, Ep; apply Qle_refl).
  apply Qle_bool_iff in Hle. congruence.
Qed.

Lemma sort_by_area_desc_stable (k : Q) (l : list DetectedObject) :
  filter (has_area k) (sort_by_area_desc l) = filter (has_area k) l.
Proof.
  induction l as [|o l IH]; [reflexivity|].
  cbn [sort_by_area_desc]. rewrite insert_desc_stable.
  cbn [filter]. now rewrite IH.
Qed.

(** ** The contour filter *)

Lemma box_ratio_ok (x y w h : Z) :
  (if (h >? 0)%Z then truediv (inject_Z w) (inject_Z h) else Ok 0)
  = Ok (box_ratio (x, y, w, h)).
Proof.
  unfold box_ratio. destruct (h >? 0)%Z eqn:E; [|reflexivity].
  apply truediv_nonzero. apply Z.gtb_lt in E.
  unfold Qeq. simpl. lia.
Qed.

Lemma centroid_ok (contour : Contour) (x y w h : Z) :
  exists cx cy,
    (if negb (Qeq_bool (m00 contour) 0) then
       qx <- truediv (m10 contour) (m00 contour) ;;
       qy <- truediv (m01 contour) (m00 contour) ;;
       Ok (int qx, int qy)
     else Ok (x + w / 2, y + h / 2)%Z) = Ok (cx, cy).
Proof.
  destruct (Qeq_bool (m00 contour) 0) eqn:E; simpl.
  - eauto.
  - apply Qeq_bool_neq in E. rewrite !truediv_nonzero by exact E.
    simpl. eauto.
Qed.

(** What [extract_contour] answers, case by case; it never raises. *)
Lemma extract_contour_cases (c : string) (min_area max_area : Q)
    (range : Q * Q) (contour : Contour) :
  let a := contourArea contour in
  let ar := box_ratio (boundingRect contour) in
  (extract_contour c min_area max_area range contour = Ok None /\
   (a < min_area \/ max_area < a \/ ar < fst range \/ snd range < ar))
  \/
  (exists obj,
     extract_contour c min_area max_area range contour = Ok (Some obj) /\
     color obj = c /\ area obj = a /\
     bbox obj = boundingRect contour /\ aspect_ratio obj = ar /\
     min_area <= a <= max_area /\ fst range <= ar <= snd range).
Proof.
  intros a ar. subst a ar. unfold extract_contour.
  destruct (Qltb (contourArea contour) min_area) eqn:E1; cbn [orb].
  { left. apply Qltb_lt in E1. tauto. }
  destruct (Qgtb (contourArea contour) max_area) eqn:E2; cbn [orb].
  { left. apply Qgtb_gt in E2. tauto. }
  apply Qltb_ge in E1. apply Qgtb_le in E2.
  destruct (boundingRect contour) as [[[x y] w] h].
  rewrite (box_ratio_ok x y w h). cbn [bind].
  destruct (Qltb (box_ratio (x, y, w, h)) (fst range)) eqn:E3; cbn [orb].
  { left. apply Qltb_lt in E3. tauto. }
  destruct (Qgtb (box_ratio (x, y, w, h)) (snd range)) eqn:E4; cbn [orb].
  { left. apply Qgtb_gt in E4. tauto. }
  apply Qltb_ge in E3. apply Qgtb_le in E4.
  right. destruct (centroid_ok contour x y w h) as (cx & cy & Hc).
  rewrite Hc. cbn [bind]. eexists. split; [reflexivity|].
  cbn [color area bbox aspect_ratio]. tauto.
Qed.

Lemma extract_loop_ok (c : string) (min_area max_area : Q) (range : Q * Q)
    (contours : list Contour) (objects : list DetectedObject) :
  exists new,
    extract_loop c min_area max_area range contours objects
    = Ok (objects ++ new) /\
    Forall (kept_from c min_area max_area range contours) new.
Proof.
  revert objects.
  induction contours as [|contour rest IH]; intros objects; simpl.
  - exists []. rewrite app_nil_r. split; [reflexivity | constructor].
  - destruct (extract_contour_cases c min_area max_area range contour)
      as [[H _] | (obj & H & _)]; rewrite H; cbn [bind].
    + destruct (IH objects) as (new & Hnew & Hall).
      exists new. split; [exact Hnew|].
      eapply Forall_impl; [|exact Hall].
      intros o (k & Hin & Hk). exists k. split; [now right | exact Hk].
    + destruct (IH (objects ++ [obj])) as (new & Hnew & Hall).
      exists (obj :: new). split.
      * rewrite Hnew, <- app_assoc. reflexivity.
      * constructor.
        -- exists contour. split; [now left | exact H].
        -- eapply Forall_impl; [|exact Hall].
           intros o (k & Hin & Hk). exists k. split; [now right | exact Hk].
Qed.

Lemma extract_objects_from_mask_ok (mask : Mask) (c : string)
    (min_area max_area : Q) (range : Q * Q) :
  exists kept,
    extract_objects_from_mask mask c min_area max_area range
    = Ok (sort_by_area_desc kept) /\
    Forall (kept_from c min_area max_area range mask) kept.
Proof.
  unfold extract_objects_from_mask.
  destruct (extract_loop_ok c min_area max_area range mask [])
    as (new & Hnew & Hall).
  rewrite Hnew. simpl. eauto.
Qed.

(** A contour the filter rejects leaves no mark on the loop. *)
Lemma extract_loop_skip (c : string) (min_area max_area : Q) (range : Q * Q)
    (before after : list Contour) (contour : Contour)
    (objects : list DetectedObject) :
  extract_contour c min_area max_area range contour = Ok None ->
  extract_loop c min_area max_area range (before ++ contour :: after) objects
  = extract_loop c min_area max_area range (before ++ after) objects.
Proof.
  intros Hrej. revert objects.
  induction before as [|b before IH]; intros objects; simpl.
  - rewrite Hrej. reflexivity.
  - destruct (extract_contour c min_area max_area range b); simpl;
      [apply IH | reflexivity].
Qed.

(** ** The detectors *)

Lemma detect_loop_ok (vs : VisionSystem) (min_area max_area : Q)
    (range : Q * Q) (frame : Frame) (colors : list string)
    (all_objects : list DetectedObject) :
  forallb (color_supported vs) colors = true ->
  exists objs,
    detect_loop vs min_area max_area range frame colors all_objects
    = Ok objs.
Proof.
  revert all_objects.
  induction colors as [|c rest IH]; intros all_objects Hsup; simpl.
  - eauto.
  - simpl in Hsup. apply andb_true_iff in Hsup as [Hc Hrest].
    unfold create_color_mask. rewrite Hc. cbn [bind].
    destruct (extract_objects_from_mask_ok (frame c) c min_area max_area
                range) as (kept & Hk & _).
    rewrite Hk. cbn [bind]. now apply IH.
Qed.

Lemma kept_from_bounds (c : string) (min_area max_area : Q) (range : Q * Q)
    (contours : list Contour) (obj : DetectedObject) :
  kept_from c min_area max_area range contours obj ->
  min_area <= area obj <= max_area /\
  fst range <= aspect_ratio obj <= snd range /\
  aspect_ratio obj = box_ratio (bbox obj).
Proof.
  intros (contour & _ & Hk).
  destruct (extract_contour_cases c min_area max_area range contour)
    as [[H _] | (o & H & _ & Ha & Hb & Hr & Hin1 & Hin2)];
    rewrite H in Hk; [discriminate|].
  injection Hk as <-. rewrite Ha, Hr, Hb. tauto.
Qed.

(** ** Alignment error *)

(** C3. [calculate_alignment_error] returns the signed offset of the
    object's centre from the frame centre; the direction is [centered]
    exactly when the offset is less than 30 in absolute value, [right]
    exactly when it is at least 30, and [left] exactly when it is at most
    -30. *)
Theorem calculate_alignment_error_spec (vs : VisionSystem)
    (obj : DetectedObject) :
  let error := (center_x obj - frame_center_x vs)%Z in
  let direction := snd (calculate_alignment_error vs obj) in
  fst (calculate_alignment_error vs obj) = error /\
  (direction = centered <-> (Z.abs error < 30)%Z) /\
  (direction = right <-> (30 <= Z.abs error)%Z /\ (error > 0)%Z) /\
  (direction = left <-> (30 <= Z.abs error)%Z /\ (error < 0)%Z).
Proof.
  cbv zeta. unfold calculate_alignment_error, center_threshold.
  destruct (Z.ltb_spec (Z.abs (center_x obj - frame_center_x vs)) 30)
    as [Hc | Hc].
  - cbn [fst snd]. repeat split; try discriminate; try lia; auto.
  - destruct (Z.gtb_spec (center_x obj - frame_center_x vs) 0) as [Hp | Hp];
      cbn [fst snd]; repeat split; try discriminate; try lia; auto.
Qed.

(** ** Distance estimate *)

Lemma estimate_distance_cases (obj : DetectedObject) (reference_area : Q) :
  0 < reference_area ->
  let ratio := area obj / reference_area in
  (estimate_distance obj reference_area = Ok too_close /\ 15 # 10 < ratio)
  \/ (estimate_distance obj reference_area = Ok too_far /\ ratio < 5 # 10)
  \/ (estimate_distance obj reference_area = Ok good /\
      5 # 10 <= ratio <= 15 # 10).
Proof.
  intros Hpos ratio. subst ratio. unfold estimate_distance.
  rewrite truediv_nonzero by (intros E; rewrite E in Hpos; discriminate).
  cbn [bind].
  destruct (Qgtb (area obj / reference_area) (15 # 10)) eqn:E1.
  { left. now apply Qgtb_gt in E1. }
  destruct (Qltb (area obj / reference_area) (5 # 10)) eqn:E2.
  { right; left. now apply Qltb_lt in E2. }
  right; right. apply Qgtb_le in E1. apply Qltb_ge in E2. tauto.
Qed.

(** C4. For a positive reference area, [estimate_distance] answers
    [too_close] exactly when area/reference_area > 1.5, [too_far] exactly
    when it is < 0.5 and [good] otherwise; at a ratio of exactly 1.5 the
    answer is not [too_close], at exactly 0.5 it is not [too_far]; and any
    object and positive reference area with the same ratio get the same
    answer. *)
Theorem estimate_distance_spec (obj obj' : DetectedObject)
    (reference_area reference_area' : Q) :
  0 < reference_area ->
  0 < reference_area' ->
  let ratio := area obj / reference_area in
  exists d,
    estimate_distance obj reference_area = Ok d /\
    (d = too_close <-> 15 # 10 < ratio) /\
    (d = too_far <-> ratio < 5 # 10) /\
    (d = good <-> 5 # 10 <= ratio <= 15 # 10) /\
    (ratio == 15 # 10 -> d <> too_close) /\
    (ratio == 5 # 10 -> d <> too_far) /\
    (area obj' / reference_area' == ratio ->
     estimate_distance obj' reference_area' = Ok d).
Proof.
  intros Hpos Hpos' ratio.
  pose proof (estimate_distance_cases obj' Hpos') as H'. cbv zeta in H'.
  destruct (estimate_distance_cases obj Hpos) as [[E H] | [[E H] | [E H]]];
    fold ratio in H; [exists too_close | exists too_far | exists good];
    (split; [exact E|]);
    repeat split; try discriminate; try tauto; try lra;
    try (intros Hr; rewrite Hr in H; lra);
    try (intros Hr; rewrite Hr in H';
         destruct H' as [[E' H'] | [[E' H'] | [E' H']]];
         [exact E' + lra ..]).
Qed.

Lemma estimate_distance_spec_witness :
  exists d,
    estimate_distance (sheet_of_area 30000) 20000 = Ok d /\
    d <> too_close /\
    estimate_distance (sheet_of_area 15000) 10000 = Ok d.
Proof.
  destruct (estimate_distance_spec (sheet_of_area 30000)
              (sheet_of_area 15000) (reference_area := 20000)
              (reference_area' := 10000) eq_refl eq_refl)
    as (d & E & _ & _ & _ & H1 & _ & H2).
  exists d. split; [exact E|]. split.
  - apply H1. reflexivity.
  - apply H2. reflexivity.
Defined.

(** C5 as stated fails: at area 10000 and reference area 20000 the answer
    is not [too_far]. *)
Lemma estimate_distance_half_not_too_far :
  estimate_distance (sheet_of_area 10000) 20000 <> Ok too_far.
Proof. vm_compute. discriminate. Qed.

(** C5, amended. For an object of area 10000 and reference area 20000
    (ratio exactly 0.5), [estimate_distance] returns [good]. *)
Theorem estimate_distance_half_good (obj : DetectedObject) :
  area obj == 10000 -> estimate_distance obj 20000 = Ok good.
Proof.
  intros Ha.
  destruct (@estimate_distance_cases obj 20000 eq_refl)
    as [[E H] | [[E H] | [E H]]];
    rewrite Ha in H; [vm_compute in H; discriminate .. | exact E].
Qed.

Lemma estimate_distance_half_good_witness :
  estimate_distance (sheet_of_area 10000) 20000 = Ok good.
Proof.
  apply (estimate_distance_half_good (sheet_of_area 10000)). reflexivity.
Defined.

(** ** Extraction *)

(** C6. On every mask and class parameters, [extract_objects_from_mask]
    returns a list, and each object in it has its area within
    [[min_area, max_area]] and its aspect ratio within
    [[min_ratio, max_ratio]], the aspect ratio being width/height of the
    bounding box whenever the height is positive. *)
Theorem extract_within_bounds (mask : Mask) (c : string)
    (min_area max_area : Q) (range : Q * Q) :
  exists objs,
    extract_objects_from_mask mask c min_area max_area range = Ok objs /\
    Forall (fun obj =>
              min_area <= area obj <= max_area /\
              fst range <= aspect_ratio obj <= snd range /\
              forall x y w h,
                bbox obj = (x, y, w, h) -> (0 < h)%Z ->
                aspect_ratio obj = inject_Z w / inject_Z h) objs.
Proof.
  destruct (extract_objects_from_mask_ok mask c min_area max_area range)
    as (kept & Hk & Hall).
  exists (sort_by_area_desc kept). split; [exact Hk|].
  apply (Permutation_Forall (sort_by_area_desc_perm kept)).
  eapply Forall_impl; [|exact Hall].
  intros o Ho. apply kept_from_bounds in Ho as (Ha & Hr & Hb).
  repeat split; try tauto.
  intros x y w h Hbox Hh. rewrite Hb, Hbox. unfold box_ratio.
  apply Z.gtb_lt in Hh. now rewrite Hh.
Qed.

(** C7. Every list returned by [extract_objects_from_mask],
    [detect_small_blocks] or [detect_sheets] is ordered by non-increasing
    area, the detectors sorting the concatenation over the requested
    colours; and the detectors do return a list, for any frame, as soon as
    every requested colour is configured. *)
Theorem detection_results_sorted (vs : VisionSystem) (frame : Frame)
    (colors : list string) (mask : Mask) (c : string)
    (min_area max_area : Q) (range : Q * Q) :
  (exists objs,
     extract_objects_from_mask mask c min_area max_area range = Ok objs /\
     StronglySorted area_ge objs) /\
  (forall blocks,
     detect_small_blocks vs frame colors = Ok blocks ->
     StronglySorted area_ge blocks) /\
  (forall sheets,
     detect_sheets vs frame colors = Ok sheets ->
     StronglySorted area_ge sheets) /\
  (forallb (color_supported vs) colors = true ->
   (exists blocks, detect_small_blocks vs frame colors = Ok blocks) /\
   (exists sheets, detect_sheets vs frame colors = Ok sheets)).
Proof.
  split; [|split; [|split]].
  - destruct (extract_objects_from_mask_ok mask c min_area max_area range)
      as (kept & Hk & _).
    exists (sort_by_area_desc kept).
    split; [exact Hk | apply sort_by_area_desc_sorted].
  - intros blocks H. apply bind_Ok_inv in H as (all_blocks & _ & H).
    injection H as <-. apply sort_by_area_desc_sorted.
  - intros sheets H. apply bind_Ok_inv in H as (all_sheets & _ & H).
    injection H as <-. apply sort_by_area_desc_sorted.
  - intros Hsup. split.
    + unfold detect_small_blocks.
      destruct (detect_loop_ok vs (block_min_area vs) (block_max_area vs)
                  (block_aspect_ratio_range vs) frame colors [] Hsup)
        as (all_blocks & Hall).
      rewrite Hall. cbn [bind]. eauto.
    + unfold detect_sheets.
      destruct (detect_loop_ok vs (sheet_min_area vs) (sheet_max_area vs)
                  (sheet_aspect_ratio_range vs) frame colors [] Hsup)
        as (all_sheets & Hall).
      rewrite Hall. cbn [bind]. eauto.
Qed.

Lemma detection_results_sorted_witness :
  exists blocks,
    detect_small_blocks default_vision sample_frame default_block_colors
    = Ok blocks /\
    StronglySorted area_ge blocks.
Proof.
  destruct (@detection_results_sorted default_vision sample_frame
              default_block_colors (sample_frame "red") "red"
              300 5000 (5 # 10, 2)) as (_ & Hsorted & _ & Hret).
  destruct (proj1 (Hret eq_refl)) as (blocks & Hb).
  exists blocks. split; [exact Hb | exact (Hsorted blocks Hb)].
Defined.

(** C10. A contour whose bounding box has height 0 never makes
    [extract_objects_from_mask] raise, whatever mask it occurs in: its aspect
    ratio is taken to be 0, so it is kept, with aspect ratio 0, when its area
    is admitted and 0 lies in the ratio range, and dropped whenever the
    least admitted ratio is positive, the result then being that of the mask
    without the contour. *)
Theorem extract_total_on_degenerate_box (c : string) (min_area max_area : Q)
    (range : Q * Q) (contour : Contour) (x y w : Z) :
  boundingRect contour = (x, y, w, 0%Z) ->
  (forall before after, exists objs,
     extract_objects_from_mask (before ++ contour :: after) c
       min_area max_area range = Ok objs) /\
  (extract_contour c min_area max_area range contour = Ok None \/
   exists obj,
     extract_contour c min_area max_area range contour = Ok (Some obj) /\
     aspect_ratio obj = 0) /\
  (min_area <= contourArea contour <= max_area ->
   fst range <= 0 <= snd range ->
   exists obj,
     extract_contour c min_area max_area range contour = Ok (Some obj) /\
     aspect_ratio obj = 0) /\
  (0 < fst range ->
   extract_contour c min_area max_area range contour = Ok None /\
   forall before after,
     extract_objects_from_mask (before ++ contour :: after) c
       min_area max_area range
     = extract_objects_from_mask (before ++ after) c
         min_area max_area range).
Proof.
  intros Hbox.
  pose proof (extract_contour_cases c min_area max_area range contour) as H.
  cbv zeta in H. rewrite Hbox in H. unfold box_ratio in H.
  change (0 >? 0)%Z with false in H. cbv iota in H.
  split; [|split; [|split]].
  - intros before after.
    destruct (extract_objects_from_mask_ok (before ++ contour :: after) c
                min_area max_area range) as (kept & Hk & _).
    eauto.
  - destruct H as [[H _] | (obj & H & _ & _ & _ & Hr & _)]; [now left|].
    right. eauto.
  - intros Ha Hr.
    destruct H as [[_ H] | (obj & H & _ & _ & _ & Hobj & _)].
    + exfalso. lra.
    + eauto.
  - intros Hmin.
    assert (Hrej : extract_contour c min_area max_area range contour
                   = Ok None).
    { destruct H as [[H _] | (obj & _ & _ & _ & _ & _ & _ & Hr)];
        [exact H | exfalso; lra]. }
    split; [exact Hrej|].
    intros before after. unfold extract_objects_from_mask.
    now rewrite extract_loop_skip.
Qed.

Lemma extract_total_on_degenerate_box_witness :
  extract_objects_from_mask
    ([region 900 (285, 185, 30, 30)%Z] ++ flat_contour :: []) "red"
    300 5000 (5 # 10, 2)
  = extract_objects_from_mask
      ([region 900 (285, 185, 30, 30)%Z] ++ []) "red" 300 5000 (5 # 10, 2).
Proof.
  exact (proj2 (proj2 (proj2 (proj2
           (@extract_total_on_degenerate_box "red" 300 5000 (5 # 10, 2)
              flat_contour 100 200 40 eq_refl))) eq_refl)
           [region 900 (285, 185, 30, 30)%Z] []).
Defined.

End VisionFacts.


(* ================================================================== *)
(** * Properties of the controller *)
(* ================================================================== *)

Module ControllerFacts.

Import Controller.
Import Props Samples VisionFacts.

Local Open Scope Q_scope.

(** ** What each state function leaves alone *)

Lemma search_step_fields (r : Robot) :
  current_state (fst (search_step r)) = current_state r /\
  current_block_color (fst (search_step r)) = current_block_color r /\
  blocks_processed (fst (search_step r)) = blocks_processed r /\
  snd (search_step r) = false.
Proof.
  unfold search_step. cbn [search_attempts set_search_attempts].
  destruct (search_attempts r + 1 >? max_search_attempts)%Z; cbn; tauto.
Qed.

Section Steps.

Variable vs : VisionSystem.

Lemma state_find_block_fields (frame : Frame) (r r' : Robot) (b : bool) :
  state_find_block vs frame r = Ok (r', b) ->
  current_state r' = current_state r /\
  blocks_processed r' = blocks_processed r /\
  (b = true ->
   exists block rest,
     detect_small_blocks vs frame default_block_colors = Ok (block :: rest) /\
     current_block_color r' = Some (color block) /\
     search_attempts r' = 0%Z).
Proof.
  unfold state_find_block.
  destruct (detect_small_blocks vs frame default_block_colors)
    as [[|block rest]|e]; cbn [bind]; [| |discriminate].
  - intros H. injection H as H.
    destruct (search_step_fields r) as (H1 & _ & H3 & H4).
    rewrite H in H1, H3, H4. cbn [fst snd] in H1, H3, H4.
    repeat split; auto. congruence.
  - destruct (calculate_alignment_error vs block) as [error direction].
    destruct (Z.abs error >? alignment_tolerance)%Z;
      intros H; injection H as <- <-; cbn.
    + repeat split; auto. discriminate.
    + repeat split; auto. intros _. eauto.
Qed.

Lemma state_grab_block_fields (r r' : Robot) (b : bool) :
  state_grab_block r = Ok (r', b) ->
  b = true /\
  current_state r' = current_state r /\
  current_block_color r' = current_block_color r /\
  search_attempts r' = search_attempts r /\
  blocks_processed r' = (blocks_processed r + 1)%Z.
Proof.
  unfold state_grab_block.
  destruct (current_block_color r) eqn:E; [|discriminate].
  intros H. injection H as <- <-. cbn. auto.
Qed.

Lemma state_align_to_target_sheet_fields (frame : Frame) (r r' : Robot)
    (b : bool) :
  state_align_to_target_sheet vs frame r = Ok (r', b) ->
  current_state r' = current_state r /\
  current_block_color r' = current_block_color r /\
  blocks_processed r' = blocks_processed r.
Proof.
  unfold state_align_to_target_sheet.
  destruct (current_block_color r) as [held|] eqn:E; [|discriminate].
  destruct (detect_sheets vs frame [held]) as [[|sheet rest]|e];
    cbn [bind]; [| |discriminate].
  - intros H. injection H as H.
    destruct (search_step_fields r) as (H1 & H2 & H3 & _).
    rewrite H in H1, H2, H3. cbn [fst] in H1, H2, H3.
    rewrite E in H2. auto.
  - destruct (calculate_alignment_error vs sheet) as [error direction].
    destruct (estimate_distance sheet 20000) as [distance|e];
      cbn [bind]; [|discriminate].
    destruct (Z.abs error >? alignment_tolerance)%Z;
      [|destruct distance];
      intros H; injection H as <- <-; cbn; auto.
Qed.

Lemma state_drop_block_fields (r r' : Robot) (b : bool) :
  state_drop_block r = Ok (r', b) ->
  b = true /\
  current_state r' = current_state r /\
  current_block_color r' = None /\
  search_attempts r' = search_attempts r /\
  blocks_processed r' = blocks_processed r.
Proof.
  unfold state_drop_block.
  destruct (current_block_color r) eqn:E; [|discriminate].
  intros H. injection H as <- <-. cbn. auto.
Qed.

(** ** The colour invariant *)

Lemma run_state_machine_color_inv (t : Tick) (r r' : Robot) :
  color_inv r -> run_state_machine vs t r = Ok r' -> color_inv r'.
Proof.
  unfold run_state_machine. intros Hinv.
  destruct (negb (RobotState_eqb (current_state r) IDLE)
            && check_timeout (clock_check t) r).
  { intros H. injection H as <-. exact I. }
  unfold color_inv in Hinv.
  destruct (current_state r) eqn:Est; intros H.
  - apply bind_Ok_inv in H as ([r1 b] & Hstep & H). injection H as <-.
    apply state_find_block_fields in Hstep as (Hs & _ & Hb).
    destruct b.
    + destruct (Hb eq_refl) as (block & rest & _ & Hc & _).
      unfold color_inv. cbn. rewrite Hc. discriminate.
    + unfold color_inv. rewrite Hs, Est. exact I.
  - apply bind_Ok_inv in H as ([r1 b] & Hstep & H). injection H as <-.
    apply state_grab_block_fields in Hstep as (-> & _ & Hc & _).
    unfold color_inv. cbn. now rewrite Hc.
  - apply bind_Ok_inv in H as ([r1 b] & Hstep & H). injection H as <-.
    apply state_align_to_target_sheet_fields in Hstep as (Hs & Hc & _).
    destruct b; unfold color_inv.
    + cbn. now rewrite Hc.
    + rewrite Hs, Est, Hc. exact Hinv.
  - apply bind_Ok_inv in H as ([r1 b] & Hstep & H). injection H as <-.
    apply state_drop_block_fields in Hstep as (-> & _ & Hc & _).
    unfold color_inv. cbn. exact Hc.
  - cbn in H. injection H as <-. unfold color_inv. now rewrite Est.
Qed.

Lemma handle_key_color_inv (now : Q) (k : Key) (r : Robot) :
  color_inv r -> color_inv (handle_key now k r).
Proof.
  intros Hinv. destruct k; cbn; try exact Hinv; try exact I.
  destruct (RobotState_eqb (current_state r) IDLE); [exact I | exact Hinv].
Qed.

Lemma reachable_color_inv (r : Robot) : reachable vs r -> color_inv r.
Proof.
  induction 1 as [now | t now_key k r r' _ IH _ Hstep].
  - exact I.
  - unfold loop_iteration in Hstep.
    apply bind_Ok_inv in Hstep as (_ & _ & Hstep).
    apply bind_Ok_inv in Hstep as (_ & _ & Hstep).
    apply bind_Ok_inv in Hstep as (r1 & Hrun & Hkey).
    injection Hkey as <-.
    apply handle_key_color_inv.
    now apply (run_state_machine_color_inv t r).
Qed.

End Steps.

(** ** Sample runs *)

Lemma searching_reachable : reachable default_vision searching.
Proof.
  by_iteration (tick empty_frame 1 2) (init 0). apply reachable_init.
Qed.

Lemma turning_reachable : reachable default_vision turning.
Proof.
  by_iteration (tick off_centre_frame 1 2) (init 0). apply reachable_init.
Qed.

Lemma grabbing_reachable : reachable default_vision grabbing.
Proof.
  by_iteration (tick sample_frame 1 2) (init 0). apply reachable_init.
Qed.

Lemma gave_up_reachable : reachable default_vision gave_up.
Proof.
  by_iteration (tick sample_frame 33 34) grabbing. apply grabbing_reachable.
Qed.

Lemma dropping_reachable : reachable default_vision dropping.
Proof.
  by_iteration (tick sample_frame 9 10)
    (change_state 8 ALIGN_TO_TARGET_SHEET
       (set_blocks_processed 1 (emit Car.grab_block grabbing))).
  by_iteration (tick sample_frame 3 8) grabbing.
  apply grabbing_reachable.
Qed.

(** ** The held colour *)

(** C1 as stated fails: the robot can be in [FIND_BLOCK] with a colour
    recorded.  [gave_up] got there by the timeout on [GRAB_BLOCK], which
    keeps the colour; [turning] by seeing a block it is not yet aligned
    to. *)
Lemma find_block_with_color_recorded :
  (reachable default_vision gave_up /\
   current_state gave_up = FIND_BLOCK /\
   current_block_color gave_up = Some "red") /\
  (reachable default_vision turning /\
   current_state turning = FIND_BLOCK /\
   current_block_color turning = Some "blue" /\
   state_find_block default_vision off_centre_frame (init 0)
   = Ok (turning, false)).
Proof.
  split.
  - split; [apply gave_up_reachable | split; reflexivity].
  - split; [apply turning_reachable|].
    split; [reflexivity|]. split; [reflexivity|].
    vm_compute. reflexivity.
Qed.

(** C1, amended. In every reachable state, a colour is recorded while the
    state is [GRAB_BLOCK], [ALIGN_TO_TARGET_SHEET] or [DROP_BLOCK], and none
    while it is [IDLE]; and a [FIND_BLOCK] step that reports done has
    recorded the colour of the first (largest) detected block. *)
Theorem held_color_invariant (vs : VisionSystem) (r : Robot) :
  reachable vs r ->
  (current_state r = GRAB_BLOCK \/
   current_state r = ALIGN_TO_TARGET_SHEET \/
   current_state r = DROP_BLOCK ->
   current_block_color r <> None) /\
  (current_state r = IDLE -> current_block_color r = None) /\
  (forall frame r',
     state_find_block vs frame r = Ok (r', true) ->
     exists block rest,
       detect_small_blocks vs frame default_block_colors
       = Ok (block :: rest) /\
       current_block_color r' = Some (color block)).
Proof.
  intros Hreach. apply reachable_color_inv in Hreach.
  unfold color_inv in Hreach. split; [|split].
  - intros [E | [E | E]]; now rewrite E in Hreach.
  - intros E. now rewrite E in Hreach.
  - intros frame r' Hstep.
    apply state_find_block_fields in Hstep as (_ & _ & Hb).
    destruct (Hb eq_refl) as (block & rest & Hd & Hc & _). eauto.
Qed.

Lemma held_color_invariant_witness :
  current_block_color dropping <> None.
Proof.
  apply (proj1 (held_color_invariant dropping_reachable)).
  right; right; reflexivity.
Defined.

(** ** The search-attempt counter *)

(** C2 as stated fails: [change_state] leaves the counter alone.  From
    [searching], where it is 1, both the forced timeout and the reset key
    enter [FIND_BLOCK] with the counter still at 1, and the next tick
    without a detection raises it to 2. *)
Lemma search_attempts_survive_transition :
  reachable default_vision searching /\
  search_attempts searching = 1%Z /\
  run_state_machine default_vision (tick empty_frame 31 32) searching
  = Ok (change_state 32 FIND_BLOCK searching) /\
  search_attempts (change_state 32 FIND_BLOCK searching) = 1%Z /\
  search_attempts (handle_key 32 key_r searching) = 1%Z /\
  exists r',
    run_state_machine default_vision (tick empty_frame 33 34)
      (change_state 32 FIND_BLOCK searching) = Ok r' /\
    search_attempts r' = 2%Z.
Proof.
  split; [apply searching_reachable|].
  split; [reflexivity|]. split; [vm_compute; reflexivity|].
  split; [reflexivity|]. split; [reflexivity|].
  eexists. split; [lazy; reflexivity | reflexivity].
Qed.

(** A [FIND_BLOCK] or [ALIGN_TO_TARGET_SHEET] step whose detection is
    non-empty returns, and ends with the counter at 0; [change_state] and
    the key handling leave the counter as it is. *)
Lemma detection_resets_search_attempts (vs : VisionSystem)
    (frame : Frame) (r : Robot) :
  (forall block rest,
     detect_small_blocks vs frame default_block_colors = Ok (block :: rest) ->
     exists r' done,
       state_find_block vs frame r = Ok (r', done) /\
       search_attempts r' = 0%Z) /\
  (forall held sheet rest,
     current_block_color r = Some held ->
     detect_sheets vs frame [held] = Ok (sheet :: rest) ->
     exists r' done,
       state_align_to_target_sheet vs frame r = Ok (r', done) /\
       search_attempts r' = 0%Z) /\
  (forall now new_state,
     search_attempts (change_state now new_state r) = search_attempts r) /\
  (forall now k, search_attempts (handle_key now k r) = search_attempts r).
Proof.
  split; [|split; [|split]].
  - intros block rest Hd. unfold state_find_block. rewrite Hd. cbn [bind].
    destruct (calculate_alignment_error vs block) as [error direction].
    destruct (Z.abs error >? alignment_tolerance)%Z;
      eexists; eexists; (split; [reflexivity|]); reflexivity.
  - intros held sheet rest Hc Hd. unfold state_align_to_target_sheet.
    rewrite Hc, Hd. cbn [bind].
    destruct (calculate_alignment_error vs sheet) as [error direction].
    destruct (@estimate_distance_cases sheet 20000 eq_refl)
      as [[E _] | [[E _] | [E _]]]; rewrite E; cbn [bind];
      destruct (Z.abs error >? alignment_tolerance)%Z;
      eexists; eexists; (split; [reflexivity|]); reflexivity.
  - reflexivity.
  - intros now k. destruct k; cbn; try reflexivity.
    now destruct (RobotState_eqb (current_state r) IDLE).
Qed.

(** ** The counter of processed blocks *)

(** C8 as stated fails: the drop step leaves [blocks_processed] as it is,
    and the grab step is the one that increments it. *)
Lemma drop_does_not_count :
  reachable default_vision dropping /\
  (exists r',
     state_drop_block dropping = Ok (r', true) /\
     blocks_processed r' = blocks_processed dropping /\
     blocks_processed r' <> (blocks_processed dropping + 1)%Z) /\
  reachable default_vision grabbing /\
  (exists r',
     state_grab_block grabbing = Ok (r', true) /\
     blocks_processed r' <> blocks_processed grabbing).
Proof.
  split; [apply dropping_reachable|].
  split; [eexists; repeat split; discriminate|].
  split; [apply grabbing_reachable|].
  eexists; repeat split; discriminate.
Qed.

(** C8, amended. From any reachable state in [DROP_BLOCK], the drop step
    reports done, clears the held colour and leaves [blocks_processed]
    unchanged; from any reachable state in [GRAB_BLOCK], the grab step
    reports done and increments [blocks_processed] by exactly one; the
    steps of the other states leave [blocks_processed] unchanged. *)
Theorem blocks_processed_steps (vs : VisionSystem) (frame : Frame)
    (r : Robot) :
  reachable vs r ->
  (current_state r = DROP_BLOCK ->
   exists r',
     state_drop_block r = Ok (r', true) /\
     current_block_color r' = None /\
     blocks_processed r' = blocks_processed r) /\
  (current_state r = GRAB_BLOCK ->
   exists r',
     state_grab_block r = Ok (r', true) /\
     blocks_processed r' = (blocks_processed r + 1)%Z) /\
  (forall r' done,
     state_find_block vs frame r = Ok (r', done) ->
     blocks_processed r' = blocks_processed r) /\
  (forall r' done,
     state_align_to_target_sheet vs frame r = Ok (r', done) ->
     blocks_processed r' = blocks_processed r) /\
  blocks_processed (fst (state_idle r)) = blocks_processed r.
Proof.
  intros Hreach. apply reachable_color_inv in Hreach.
  unfold color_inv in Hreach. split; [|split; [|split; [|split]]].
  - intros E. rewrite E in Hreach. unfold state_drop_block.
    destruct (current_block_color r); [|contradiction].
    eexists. repeat split.
  - intros E. rewrite E in Hreach. unfold state_grab_block.
    destruct (current_block_color r); [|contradiction].
    eexists. repeat split.
  - intros r' done Hstep.
    now apply state_find_block_fields in Hstep as (_ & H & _).
  - intros r' done Hstep.
    now apply state_align_to_target_sheet_fields in Hstep as (_ & _ & H).
  - reflexivity.
Qed.

Lemma blocks_processed_steps_witness :
  exists r',
    state_drop_block dropping = Ok (r', true) /\
    current_block_color r' = None /\
    blocks_processed r' = blocks_processed dropping.
Proof.
  exact (proj1 (blocks_processed_steps empty_frame dropping_reachable)
           eq_refl).
Defined.

(** ** Timeout *)

(** C9. In every state but [IDLE], a tick that starts more than 30 seconds
    after the state was entered only performs [change_state(FIND_BLOCK)]:
    the state becomes [FIND_BLOCK], the entry time is renewed, and the held
    colour, the counters and the trace of actuator calls are as before.  In
    [IDLE] a tick changes nothing, whatever the clock says. *)
Theorem timeout_forces_find_block (vs : VisionSystem) (t : Tick)
    (r : Robot) :
  (current_state r <> IDLE ->
   state_timeout < clock_check t - state_start_time r ->
   exists r',
     run_state_machine vs t r = Ok r' /\
     r' = change_state (clock_change t) FIND_BLOCK r /\
     current_state r' = FIND_BLOCK /\
     previous_state r' = Some (current_state r) /\
     state_start_time r' = clock_change t /\
     current_block_color r' = current_block_color r /\
     blocks_processed r' = blocks_processed r /\
     search_attempts r' = search_attempts r /\
     trace r' = trace r) /\
  (current_state r = IDLE -> run_state_machine vs t r = Ok r).
Proof.
  split.
  - intros Hst Hlate. unfold run_state_machine.
    assert (Hc : check_timeout (clock_check t) r = true)
      by (now apply Qgtb_gt).
    assert (Hn : negb (RobotState_eqb (current_state r) IDLE) = true)
      by (destruct (current_state r); [reflexivity .. | contradiction]).
    rewrite Hc, Hn. cbn [andb]. eexists. repeat split.
  - intros E. unfold run_state_machine. rewrite E. reflexivity.
Qed.

Lemma timeout_forces_find_block_witness :
  run_state_machine default_vision (tick sample_frame (321 # 10) 33) grabbing
  = Ok (change_state 33 FIND_BLOCK grabbing).
Proof.
  assert (Hst : current_state grabbing <> IDLE) by discriminate.
  assert (Hlate : state_timeout
                  < clock_check (tick sample_frame (321 # 10) 33)
                    - state_start_time grabbing) by reflexivity.
  destruct (proj1 (timeout_forces_find_block default_vision
                     (tick sample_frame (321 # 10) 33) grabbing) Hst Hlate)
    as (r' & Hrun & -> & _).
  exact Hrun.
Defined.

End ControllerFacts.


(* ================================================================== *)
(** * Further properties of detection *)
(* ================================================================== *)

Module DetectionFacts.

Import Props Samples VisionFacts.

Local Open Scope Q_scope.

(** ** Which contours are kept *)

Lemma passes_cases (c : string) (min_area max_area : Q) (range : Q * Q)
    (contour : Contour) :
  (passes min_area max_area range contour = false /\
   extract_contour c min_area max_area range contour = Ok None) \/
  (passes min_area max_area range contour = true /\
   exists obj,
     extract_contour c min_area max_area range contour = Ok (Some obj) /\
     color obj = c /\ area obj = contourArea contour).
Proof.
  unfold passes.
  destruct (extract_contour_cases c min_area max_area range contour)
    as [[H Hout] | (obj & H & Hc & Ha & _ & _ & [H1 H2] & [H3 H4])].
  - left. split; [|exact H].
    rewrite !andb_false_iff, <- !not_true_iff_false, !Qle_bool_iff.
    destruct Hout as [Hout | [Hout | [Hout | Hout]]];
      apply Qlt_not_le in Hout; tauto.
  - right. split; [|eauto].
    rewrite !andb_true_iff, !Qle_bool_iff. tauto.
Qed.

Lemma extract_loop_areas (c : string) (min_area max_area : Q)
    (range : Q * Q) (contours : list Contour)
    (objects : list DetectedObject) :
  exists new,
    extract_loop c min_area max_area range contours objects
    = Ok (objects ++ new) /\
    map area new
    = map contourArea (filter (passes min_area max_area range) contours) /\
    Forall (fun obj => color obj = c) new.
Proof.
  revert objects.
  induction contours as [|contour rest IH]; intros objects; simpl.
  - exists []. rewrite app_nil_r. repeat split. constructor.
  - destruct (passes_cases c min_area max_area range contour)
      as [[Hp H] | [Hp (obj & H & Hc & Ha)]]; rewrite H, Hp; cbn [bind].
    + apply IH.
    + destruct (IH (objects ++ [obj])) as (new & Hnew & Hareas & Hcol).
      exists (obj :: new). rewrite Hnew, <- app_assoc. cbn [app map].
      rewrite Ha, Hareas. repeat split. now constructor.
Qed.

(** ** The colour loop *)

Lemma forallb_false_exists {A : Type} (f : A -> bool) (l : list A) :
  forallb f l = false <-> exists x, In x l /\ f x = false.
Proof.
  induction l as [|a l IH]; simpl.
  - split; [discriminate | intros (x & [] & _)].
  - rewrite andb_false_iff, IH. split.
    + intros [H | (x & Hin & Hx)]; [exists a | exists x]; auto.
    + intros (x & [<- | Hin] & Hx); [now left | right; eauto].
Qed.

Lemma detect_loop_unsupported (vs : VisionSystem) (min_area max_area : Q)
    (range : Q * Q) (frame : Frame) (colors : list string)
    (all_objects : list DetectedObject) :
  forallb (color_supported vs) colors = false ->
  detect_loop vs min_area max_area range frame colors all_objects
  = Raise ValueError.
Proof.
  revert all_objects.
  induction colors as [|c rest IH]; intros all_objects; simpl;
    [discriminate|].
  unfold create_color_mask.
  destruct (color_supported vs c); cbn [andb bind]; [|reflexivity].
  intros Hrest.
  destruct (extract_objects_from_mask_ok (frame c) c min_area max_area range)
    as (kept & Hk & _).
  rewrite Hk. cbn [bind]. now apply IH.
Qed.

Lemma extracted_ok (mask : Mask) (c : string) (min_area max_area : Q)
    (range : Q * Q) :
  extract_objects_from_mask mask c min_area max_area range
  = Ok (extracted mask c min_area max_area range).
Proof.
  unfold extracted.
  destruct (extract_objects_from_mask_ok mask c min_area max_area range)
    as (kept & Hk & _).
  now rewrite Hk.
Qed.

Lemma detect_loop_concat (vs : VisionSystem) (min_area max_area : Q)
    (range : Q * Q) (frame : Frame) (colors : list string)
    (all_objects : list DetectedObject) :
  forallb (color_supported vs) colors = true ->
  detect_loop vs min_area max_area range frame colors all_objects
  = Ok (all_objects
        ++ flat_map (fun c => extracted (frame c) c min_area max_area range)
             colors).
Proof.
  revert all_objects.
  induction colors as [|c rest IH]; intros all_objects Hsup; simpl.
  - now rewrite app_nil_r.
  - simpl in Hsup. apply andb_true_iff in Hsup as [Hc Hrest].
    unfold create_color_mask. rewrite Hc. cbn [bind].
    rewrite extracted_ok. cbn [bind].
    rewrite IH by exact Hrest. now rewrite <- app_assoc.
Qed.

Lemma extracted_Forall (mask : Mask) (c : string) (min_area max_area : Q)
    (range : Q * Q) :
  Forall (fun obj =>
            color obj = c /\
            min_area <= area obj <= max_area /\
            fst range <= aspect_ratio obj <= snd range)
    (extracted mask c min_area max_area range).
Proof.
  unfold extracted.
  destruct (extract_objects_from_mask_ok mask c min_area max_area range)
    as (kept & Hk & Hall).
  rewrite Hk.
  apply (Permutation_Forall (sort_by_area_desc_perm kept)).
  eapply Forall_impl; [|exact Hall].
  intros o Ho. pose proof (kept_from_bounds Ho) as (Ha & Hr & _).
  destruct Ho as (contour & _ & Hk').
  destruct (extract_contour_cases c min_area max_area range contour)
    as [[H _] | (o' & H & Hc & _)]; rewrite H in Hk'; [discriminate|].
  injection Hk' as <-. tauto.
Qed.

Lemma flat_map_Forall {A B : Type} (P : B -> Prop) (f : A -> list B)
    (l : list A) :
  (forall a, In a l -> Forall P (f a)) -> Forall P (flat_map f l).
Proof.
  induction l as [|a l IH]; intros H; simpl; [constructor|].
  apply Forall_app. split; [apply H; now left|].
  apply IH. intros b Hb. apply H. now right.
Qed.

(** What both detectors return on configured colours, over any class
    parameters. *)
Lemma detect_loop_meets_spec (vs : VisionSystem) (min_area max_area : Q)
    (range : Q * Q) (frame : Frame) (colors : list string) :
  forallb (color_supported vs) colors = true ->
  exists objs,
    detect_loop vs min_area max_area range frame colors [] = Ok objs /\
    objs = flat_map (fun c => extracted (frame c) c min_area max_area range)
             colors /\
    Forall (fun obj =>
              In (color obj) colors /\
              min_area <= area obj <= max_area /\
              fst range <= aspect_ratio obj <= snd range) objs.
Proof.
  intros Hsup. eexists. split; [now apply detect_loop_concat|].
  split; [reflexivity|]. cbn [app].
  apply flat_map_Forall. intros c Hc.
  eapply Forall_impl; [|apply extracted_Forall].
  cbn beta. intros o (-> & H). tauto.
Qed.

(** ** Properties *)

(** X1. [extract_objects_from_mask] keeps one object for each contour that
    passes the area and aspect-ratio tests and nothing else: the returned
    areas are, up to order, the areas of the passing contours, so there are
    as many objects as passing contours, never more than contours, and all
    carry the colour given. *)
Theorem extract_keeps_passing_contours (mask : Mask) (c : string)
    (min_area max_area : Q) (range : Q * Q) :
  exists objs,
    extract_objects_from_mask mask c min_area max_area range = Ok objs /\
    Permutation (map area objs)
      (map contourArea (filter (passes min_area max_area range) mask)) /\
    List.length objs
    = List.length (filter (passes min_area max_area range) mask) /\
    (List.length objs <= List.length mask)%nat /\
    Forall (fun obj => color obj = c) objs.
Proof.
  unfold extract_objects_from_mask.
  destruct (extract_loop_areas c min_area max_area range mask [])
    as (new & Hnew & Hareas & Hcol).
  rewrite Hnew. cbn [app bind]. eexists. split; [reflexivity|].
  pose proof (sort_by_area_desc_perm new) as Hperm.
  assert (Hlen : List.length (sort_by_area_desc new)
                 = List.length (filter (passes min_area max_area range) mask)).
  { rewrite <- (Permutation_length Hperm).
    rewrite <- (length_map area new), Hareas. apply length_map. }
  split; [|split; [|split]].
  - rewrite <- Hareas. apply Permutation_map, Permutation_sym, Hperm.
  - exact Hlen.
  - rewrite Hlen. apply filter_length_le.
  - apply (Permutation_Forall Hperm), Hcol.
Qed.

(** X2. On a frame that OpenCV has preprocessed and segmented without
    error, a detector raises exactly when one of the requested colours is
    not configured, and the exception is then the [ValueError] of
    [create_color_mask]: the code of the detectors has no other raise, and
    what the masks contain plays no part in it. *)
Theorem detectors_raise_on_unconfigured_colour (vs : VisionSystem)
    (frame : Frame) (colors : list string) :
  (detect_small_blocks vs frame colors = Raise ValueError <->
   exists c, In c colors /\ color_supported vs c = false) /\
  (detect_sheets vs frame colors = Raise ValueError <->
   exists c, In c colors /\ color_supported vs c = false) /\
  (forall e,
     detect_small_blocks vs frame colors = Raise e \/
     detect_sheets vs frame colors = Raise e ->
     e = ValueError).
Proof.
  rewrite <- forallb_false_exists.
  unfold detect_small_blocks, detect_sheets.
  destruct (forallb (color_supported vs) colors) eqn:Hsup.
  - rewrite !detect_loop_concat by exact Hsup. cbn [bind].
    repeat split; try discriminate. intros e [H | H]; discriminate.
  - rewrite !detect_loop_unsupported by exact Hsup. cbn [bind].
    repeat split. intros e [H | H]; now injection H as <-.
Qed.

(** X3. When every requested colour is configured, [detect_small_blocks]
    returns the per-colour extractions, concatenated in the order of the
    colours and then sorted; every block returned has one of the requested
    colours, an area within the block area range and an aspect ratio within
    the block ratio range.  [detect_sheets] does the same with the sheet
    ranges. *)
Theorem detectors_concatenate_and_filter (vs : VisionSystem) (frame : Frame)
    (colors : list string) :
  forallb (color_supported vs) colors = true ->
  (exists blocks,
     detect_small_blocks vs frame colors = Ok blocks /\
     blocks = sort_by_area_desc
                (flat_map (fun c => extracted (frame c) c (block_min_area vs)
                                      (block_max_area vs)
                                      (block_aspect_ratio_range vs)) colors)
     /\
     Forall (fun obj =>
               In (color obj) colors /\
               block_min_area vs <= area obj <= block_max_area vs /\
               fst (block_aspect_ratio_range vs) <= aspect_ratio obj
               <= snd (block_aspect_ratio_range vs)) blocks) /\
  (exists sheets,
     detect_sheets vs frame colors = Ok sheets /\
     sheets = sort_by_area_desc
                (flat_map (fun c => extracted (frame c) c (sheet_min_area vs)
                                      (sheet_max_area vs)
                                      (sheet_aspect_ratio_range vs)) colors)
     /\
     Forall (fun obj =>
               In (color obj) colors /\
               sheet_min_area vs <= area obj <= sheet_max_area vs /\
               fst (sheet_aspect_ratio_range vs) <= aspect_ratio obj
               <= snd (sheet_aspect_ratio_range vs)) sheets).
Proof.
  intros Hsup. unfold detect_small_blocks, detect_sheets. split.
  - destruct (detect_loop_meets_spec vs (block_min_area vs)
                (block_max_area vs) (block_aspect_ratio_range vs) frame
                colors Hsup) as (objs & Hd & -> & Hall).
    rewrite Hd. cbn [bind]. eexists. split; [reflexivity|].
    split; [reflexivity|].
    eapply Permutation_Forall; [apply sort_by_area_desc_perm | exact Hall].
  - destruct (detect_loop_meets_spec vs (sheet_min_area vs)
                (sheet_max_area vs) (sheet_aspect_ratio_range vs) frame
                colors Hsup) as (objs & Hd & -> & Hall).
    rewrite Hd. cbn [bind]. eexists. split; [reflexivity|].
    split; [reflexivity|].
    eapply Permutation_Forall; [apply sort_by_area_desc_perm | exact Hall].
Qed.

Lemma detectors_concatenate_and_filter_witness :
  exists blocks,
    detect_small_blocks default_vision sample_frame default_block_colors
    = Ok blocks /\
    Forall (fun obj => In (color obj) default_block_colors) blocks.
Proof.
  destruct (proj1 (@detectors_concatenate_and_filter default_vision
                     sample_frame default_block_colors eq_refl))
    as (blocks & Hd & _ & Hall).
  exists blocks. split; [exact Hd|].
  eapply Forall_impl; [|exact Hall]. cbn beta. tauto.
Defined.

(** X4. When the largest block area lies below the smallest sheet area, as
    in the default configuration (5000 and 8000), no region is reported both
    as a block and as a sheet: on one frame every detected sheet is strictly
    larger than every detected block. *)
Theorem blocks_smaller_than_sheets (vs : VisionSystem) (frame : Frame)
    (block_colors sheet_colors : list string) :
  block_max_area vs < sheet_min_area vs ->
  forallb (color_supported vs) block_colors = true ->
  forallb (color_supported vs) sheet_colors = true ->
  exists blocks sheets,
    detect_small_blocks vs frame block_colors = Ok blocks /\
    detect_sheets vs frame sheet_colors = Ok sheets /\
    (forall b s, In b blocks -> In s sheets -> area b < area s) /\
    (forall obj, In obj blocks -> ~ In obj sheets).
Proof.
  intros Hgap Hb Hs. unfold detect_small_blocks, detect_sheets.
  destruct (detect_loop_meets_spec vs (block_min_area vs)
              (block_max_area vs) (block_aspect_ratio_range vs) frame
              block_colors Hb) as (bs & Hdb & _ & Hball).
  destruct (detect_loop_meets_spec vs (sheet_min_area vs)
              (sheet_max_area vs) (sheet_aspect_ratio_range vs) frame
              sheet_colors Hs) as (ss & Hds & _ & Hsall).
  rewrite Hdb, Hds. cbn [bind]. eexists. eexists.
  split; [reflexivity|]. split; [reflexivity|].
  assert (Hlt : forall b s,
             In b (sort_by_area_desc bs) -> In s (sort_by_area_desc ss) ->
             area b < area s).
  { intros b s Hinb Hins.
    apply (Permutation_in _ (Permutation_sym (sort_by_area_desc_perm bs)))
      in Hinb.
    apply (Permutation_in _ (Permutation_sym (sort_by_area_desc_perm ss)))
      in Hins.
    rewrite Forall_forall in Hball, Hsall.
    destruct (Hball b Hinb) as (_ & [_ Hbmax] & _).
    destruct (Hsall s Hins) as (_ & [Hsmin _] & _).
    eapply Qle_lt_trans; [exact Hbmax|].
    eapply Qlt_le_trans; [exact Hgap | exact Hsmin]. }
  split; [exact Hlt|].
  intros obj Hinb Hins. apply (Qlt_irrefl (area obj)). now apply Hlt.
Qed.

Lemma blocks_smaller_than_sheets_witness :
  exists blocks sheets,
    detect_small_blocks default_vision sample_frame default_block_colors
    = Ok blocks /\
    detect_sheets default_vision sample_frame default_sheet_colors
    = Ok sheets /\
    (forall b s, In b blocks -> In s sheets -> area b < area s).
Proof.
  destruct (@blocks_smaller_than_sheets default_vision sample_frame
              default_block_colors default_sheet_colors
              eq_refl eq_refl eq_refl)
    as (blocks & sheets & Hb & Hs & Hlt & _).
  exists blocks, sheets. auto.
Defined.

End DetectionFacts.


(* ================================================================== *)
(** * Properties of the car commands *)
(* ================================================================== *)

Module PulseFacts.

Import Props Samples.

Local Open Scope Q_scope.

Lemma scaled_error (a : Q) : a / 500 == a * (1 # 500).
Proof. reflexivity. Qed.

Lemma turn_time_bounds (error : Z) :
  let turn_time := Qmin ((1 # 10) + inject_Z (Z.abs error) / 500) (5 # 10) in
  1 # 10 <= turn_time <= 5 # 10 /\
  ((Z.abs error < 200)%Z ->
   turn_time == (1 # 10) + inject_Z (Z.abs error) / 500) /\
  ((200 <= Z.abs error)%Z -> turn_time == 5 # 10).
Proof.
  cbv zeta. pose proof (Z.abs_nonneg error) as Hnn.
  rewrite Zle_Qle in Hnn. change (inject_Z 0) with 0 in Hnn.
  split; [split|split].
  - apply Q.min_glb; [|discriminate]. rewrite scaled_error. lra.
  - apply Q.le_min_r.
  - intros Hsmall. apply Q.min_l.
    rewrite Zlt_Qlt in Hsmall. change (inject_Z 200) with 200 in Hsmall.
    rewrite scaled_error. lra.
  - intros Hbig. apply Q.min_r.
    rewrite Zle_Qle in Hbig. change (inject_Z 200) with 200 in Hbig.
    rewrite scaled_error. lra.
Qed.

(** X5. For a direction other than [centered], [align_to_target] is one
    complete turn pulse, "L" for [left] and "R" for [right], then the stop
    command and its 0.1 s settle time.  The pulse lasts 0.1 + |error|/500
    seconds while |error| < 200 and 0.5 seconds from there on, so always
    between 0.1 and 0.5 seconds.  For [centered] nothing is sent. *)
Theorem align_to_target_pulse (direction : Direction) (error : Z) :
  Car.align_to_target centered error = [] /\
  (direction <> centered ->
   exists turn_time,
     Car.align_to_target direction error
     = [Car.Send (match direction with left => "L" | _ => "R" end);
        Car.Sleep turn_time; Car.Send "S"; Car.Sleep (1 # 10)] /\
     1 # 10 <= turn_time <= 5 # 10 /\
     ((Z.abs error < 200)%Z ->
      turn_time == (1 # 10) + inject_Z (Z.abs error) / 500) /\
     ((200 <= Z.abs error)%Z -> turn_time == 5 # 10)).
Proof.
  split; [reflexivity|]. intros Hdir.
  exists (Qmin ((1 # 10) + inject_Z (Z.abs error) / 500) (5 # 10)).
  split; [|apply turn_time_bounds].
  destruct direction; [reflexivity | reflexivity | contradiction].
Qed.

Lemma align_to_target_pulse_witness :
  exists turn_time,
    Car.align_to_target right 180
    = [Car.Send "R"; Car.Sleep turn_time; Car.Send "S";
       Car.Sleep (1 # 10)] /\
    turn_time == 46 # 100.
Proof.
  destruct (proj2 (align_to_target_pulse right 180))
    as (turn_time & Hev & _ & Hsmall & _); [discriminate|].
  exists turn_time. split; [exact Hev|].
  rewrite Hsmall by reflexivity. reflexivity.
Defined.

End PulseFacts.


(* ================================================================== *)
(** * Further properties of the controller *)
(* ================================================================== *)

Module RunFacts.

Import Controller.
Import Props Samples VisionFacts DetectionFacts PulseFacts ControllerFacts.

Local Open Scope Q_scope.

(** ** The branches of a tick *)

Lemma search_step_cases (r : Robot) :
  snd (search_step r) = false /\
  ((search_attempts r < max_search_attempts)%Z ->
   fst (search_step r)
   = emit [Car.Sleep (3 # 10)]
       (emit (Car.rotate_clockwise (3 # 10))
          (set_search_attempts (search_attempts r + 1) r))) /\
  ((max_search_attempts <= search_attempts r)%Z ->
   fst (search_step r)
   = emit [Car.Sleep 2]
       (set_search_attempts 0
          (set_search_attempts (search_attempts r + 1) r))).
Proof.
  unfold search_step. cbn [search_attempts set_search_attempts].
  destruct (Z.gtb_spec (search_attempts r + 1) max_search_attempts)
    as [Hgt | Hle];
    cbn [fst snd]; repeat split; try reflexivity; intros; lia.
Qed.

Lemma run_state_machine_outcome (vs : VisionSystem) (t : Tick)
    (r r' : Robot) :
  run_state_machine vs t r = Ok r' -> tick_outcome vs t r r'.
Proof.
  unfold run_state_machine.
  destruct (negb (RobotState_eqb (current_state r) IDLE)
            && check_timeout (clock_check t) r) eqn:Hto.
  { intros H. injection H as <-.
    apply andb_true_iff in Hto as [Hst Hlate].
    apply out_timeout.
    - intros E. rewrite E in Hst. discriminate.
    - now apply Qgtb_gt in Hlate. }
  clear Hto.
  destruct (current_state r) eqn:Est.
  - unfold state_find_block.
    destruct (detect_small_blocks vs (frame t) default_block_colors)
      as [[|block rest]|e] eqn:Hd; cbn [bind]; [| |discriminate].
    + destruct (search_step_cases r) as (Hs & _).
      destruct (search_step r) as [r1 b] eqn:E. cbn [snd] in Hs. subst b.
      intros H. injection H as <-.
      change r1 with (fst (r1, false)). rewrite <- E.
      now apply out_find_miss.
    + destruct (calculate_alignment_error vs block)
        as [error direction] eqn:Ec.
      destruct (Z.gtb_spec (Z.abs error) alignment_tolerance)
        as [Hgt | Hle]; cbn [bind]; intros H; injection H as <-.
      * eapply out_find_turn; eauto.
      * eapply out_find_done; eauto.
  - unfold state_grab_block.
    destruct (current_block_color r) as [held|] eqn:Ec;
      cbn [bind]; [|discriminate].
    intros H. injection H as <-. eapply out_grab; eauto.
  - unfold state_align_to_target_sheet.
    destruct (current_block_color r) as [held|] eqn:Ec;
      cbn [bind]; [|discriminate].
    destruct (detect_sheets vs (frame t) [held])
      as [[|sheet rest]|e] eqn:Hd; cbn [bind]; [| |discriminate].
    + destruct (search_step_cases r) as (Hs & _).
      destruct (search_step r) as [r1 b] eqn:E. cbn [snd] in Hs. subst b.
      intros H. injection H as <-.
      change r1 with (fst (r1, false)). rewrite <- E.
      eapply out_align_miss; eauto.
    + destruct (calculate_alignment_error vs sheet)
        as [error direction] eqn:Ee.
      destruct (estimate_distance sheet 20000) as [distance|e] eqn:Edist;
        cbn [bind]; [|discriminate].
      destruct (Z.gtb_spec (Z.abs error) alignment_tolerance)
        as [Hgt | Hle]; [|destruct distance];
        cbn [bind]; intros H; injection H as <-.
      * eapply out_align_turn; eauto.
      * eapply out_align_backward; eauto.
      * eapply out_align_done; eauto.
      * eapply out_align_forward; eauto.
  - unfold state_drop_block.
    destruct (current_block_color r) as [held|] eqn:Ec;
      cbn [bind]; [|discriminate].
    intros H. injection H as <-. eapply out_drop; eauto.
  - cbn. intros H. injection H as <-. now apply out_idle.
Qed.

(** Induction over the runs of the main loop, tick by tick and key by key. *)
Lemma reachable_outcome_ind (vs : VisionSystem) (P : Robot -> Prop) :
  (forall now, P (init now)) ->
  (forall t r r',
     reachable vs r -> P r -> tick_outcome vs t r r' -> P r') ->
  (forall now k r, P r -> P (handle_key now k r)) ->
  forall r, reachable vs r -> P r.
Proof.
  intros Hinit Htick Hkey r Hreach.
  induction Hreach as [now | t now_key k r r' Hr IH _ Hstep].
  - apply Hinit.
  - unfold loop_iteration in Hstep.
    apply bind_Ok_inv in Hstep as (_ & _ & Hstep).
    apply bind_Ok_inv in Hstep as (_ & _ & Hstep).
    apply bind_Ok_inv in Hstep as (r1 & Hrun & Hk).
    injection Hk as <-. apply Hkey.
    apply (Htick t r r1 Hr IH). now apply run_state_machine_outcome.
Qed.

Lemma handle_key_cases (now : Q) (k : Key) (r : Robot) :
  handle_key now k r = r \/
  handle_key now k r = change_state now FIND_BLOCK r \/
  handle_key now k r
  = change_state now FIND_BLOCK (set_current_block_color None r).
Proof.
  destruct k; cbn; auto.
  destruct (RobotState_eqb (current_state r) IDLE); auto.
Qed.

Lemma search_step_effect (r : Robot) :
  current_state (fst (search_step r)) = current_state r /\
  previous_state (fst (search_step r)) = previous_state r /\
  current_block_color (fst (search_step r)) = current_block_color r /\
  blocks_processed (fst (search_step r)) = blocks_processed r /\
  state_start_time (fst (search_step r)) = state_start_time r /\
  exists es,
    trace (fst (search_step r)) = trace r ++ es /\
    (((search_attempts r < max_search_attempts)%Z /\
      search_attempts (fst (search_step r)) = (search_attempts r + 1)%Z /\
      es = [Car.Send "rC"; Car.Sleep (3 # 10); Car.Send "S";
            Car.Sleep (1 # 10); Car.Sleep (3 # 10)]) \/
     ((max_search_attempts <= search_attempts r)%Z /\
      search_attempts (fst (search_step r)) = 0%Z /\
      es = [Car.Sleep 2])).
Proof.
  destruct (search_step_cases r) as (_ & Hlt & Hge).
  destruct (Z.lt_ge_cases (search_attempts r) max_search_attempts) as [H | H].
  - rewrite (Hlt H). cbn. repeat split. eexists. split.
    + rewrite <- app_assoc. reflexivity.
    + left. repeat split. exact H.
  - rewrite (Hge H). cbn. repeat split. eexists. split; [reflexivity|].
    right. repeat split. exact H.
Qed.

Lemma count_sent_app (cmd : string) (es es' : list Car.Event) :
  count_sent cmd (es ++ es') = (count_sent cmd es + count_sent cmd es')%nat.
Proof.
  induction es as [|[c|d] es IH]; cbn; [reflexivity | | exact IH].
  destruct (String.eqb c cmd); cbn; now rewrite IH.
Qed.

Lemma settled_app (es es' : list Car.Event) :
  settled es -> settled es' -> settled (es ++ es').
Proof.
  induction 1; intros H'; cbn; [exact H' | | |].
  - apply settled_sleep; auto.
  - apply settled_pulse; auto.
  - apply settled_sequence; auto.
Qed.

(** What a tick adds to the trace, branch by branch. *)
Lemma tick_outcome_events (vs : VisionSystem) (t : Tick) (r r' : Robot) :
  tick_outcome vs t r r' -> exists es, tick_events r r' es.
Proof.
  assert (Hmoved : forall (r0 : Robot) es,
            trace r0 = trace r ++ es ->
            blocks_processed r0 = blocks_processed r ->
            (current_state r0 = ALIGN_TO_TARGET_SHEET ->
             current_state r = ALIGN_TO_TARGET_SHEET) ->
            (current_state r0 = IDLE -> current_state r = IDLE) ->
            settled es /\ (sends es <= 2)%nat /\
            0 <= blocking_time es <= 4 /\
            count_sent "go" es = 0%nat /\ count_sent "rel" es = 0%nat ->
            exists es, tick_events r r0 es).
  { intros r0 es Ht Hb Hal Hid (Hs & Hn & Hbt & Hgo & Hrel). exists es.
    unfold tick_events. rewrite Hgo, Hrel, Hb.
    repeat split; auto; try tauto; try lia. }
  assert (Hquiet : forall r0 : Robot,
            trace r0 = trace r -> blocks_processed r0 = blocks_processed r ->
            (current_state r0 = ALIGN_TO_TARGET_SHEET ->
             current_state r = ALIGN_TO_TARGET_SHEET) ->
            (current_state r0 = IDLE -> current_state r = IDLE) ->
            exists es, tick_events r r0 es).
  { intros r0 Ht Hb Hal Hid. apply (Hmoved r0 []); auto.
    - now rewrite app_nil_r.
    - cbn. repeat split; try settle; try lia; discriminate. }
  assert (Hsearch : exists es,
            trace (fst (search_step r)) = trace r ++ es /\ settled es /\
            (sends es <= 2)%nat /\ 0 <= blocking_time es <= 4 /\
            count_sent "go" es = 0%nat /\ count_sent "rel" es = 0%nat).
  { destruct (search_step_effect r) as (_ & _ & _ & _ & _ & es & Ht & Hes).
    exists es. split; [exact Ht|].
    destruct Hes as [(_ & _ & ->) | (_ & _ & ->)]; cbn;
      repeat split; try settle; try lia; try discriminate. }
  assert (Hturn : forall direction error,
            let es := Car.align_to_target direction error
                      ++ [Car.Sleep (2 # 10)] in
            settled es /\ (sends es <= 2)%nat /\
            0 <= blocking_time es <= 4 /\
            count_sent "go" es = 0%nat /\ count_sent "rel" es = 0%nat).
  { intros direction error.
    pose proof (turn_time_bounds error) as ([Hlo Hhi] & _). cbv zeta in *.
    destruct direction; cbn;
      try generalize dependent
            (Qmin ((1 # 10) + inject_Z (Z.abs error) / 500) (5 # 10));
      intros; repeat split; try settle; try lia; try lra; try discriminate. }
  assert (Hstraight : forall cmd d,
            In cmd ["A"; "B"] -> d <= 1 -> 0 <= d ->
            let es := [Car.Send cmd; Car.Sleep d] ++ Car.stop
                      ++ [Car.Sleep (2 # 10)] in
            settled es /\ (sends es <= 2)%nat /\
            0 <= blocking_time es <= 4 /\
            count_sent "go" es = 0%nat /\ count_sent "rel" es = 0%nat).
  { intros cmd d Hcmd Hd1 Hd0. cbn in Hcmd.
    destruct Hcmd as [<- | [<- | []]]; cbn;
      repeat split; try settle; try lia; try lra. }
  intros Hout. destruct Hout as
    [Hst Hlate | Hst Hd | block rest error direction Hst Hd He Herr
    | block rest error direction Hst Hd He Herr | held Hst Hc
    | held Hst Hc Hd | held sheet rest error direction Hst Hc Hd He Herr
    | held sheet rest error direction Hst Hc Hd He Herr Hdist
    | held sheet rest error direction Hst Hc Hd He Herr Hdist
    | held sheet rest error direction Hst Hc Hd He Herr Hdist
    | held Hst Hc | Hst].
  - apply Hquiet; cbn; auto; try discriminate.
  - destruct Hsearch as (es & Ht & Hes).
    destruct (search_step_effect r) as (Hs & _ & _ & Hb & _).
    apply (Hmoved _ es); auto; rewrite Hs, Hst; discriminate.
  - eapply Hmoved; [| | | |apply (Hturn direction error)]; cbn;
      rewrite ?Hst; auto; try discriminate. now rewrite <- app_assoc.
  - apply Hquiet; cbn; auto; discriminate.
  - exists Car.grab_block. unfold tick_events. cbn.
    repeat split; try settle; try lia; try discriminate; auto.
    left. split; [reflexivity | discriminate].
  - destruct Hsearch as (es & Ht & Hes).
    destruct (search_step_effect r) as (Hs & _ & _ & Hb & _).
    apply (Hmoved _ es); auto; rewrite Hs, Hst; auto; discriminate.
  - eapply Hmoved; [| | | |apply (Hturn direction error)]; cbn;
      rewrite ?Hst; auto; try discriminate. now rewrite <- app_assoc.
  - eapply Hmoved;
      [| | | |apply (Hstraight "A" (4 # 10)); cbn; auto; discriminate];
      cbn; rewrite ?Hst; auto; try discriminate.
    now rewrite <- app_assoc.
  - eapply Hmoved;
      [| | | |apply (Hstraight "B" (3 # 10)); cbn; auto; discriminate];
      cbn; rewrite ?Hst; auto; try discriminate.
    now rewrite <- app_assoc.
  - apply Hquiet; cbn; auto; discriminate.
  - exists Car.release_block. unfold tick_events. cbn.
    repeat split; try settle; try lia; try discriminate; auto.
    left. split; [reflexivity | discriminate].
  - apply Hquiet; auto.
Qed.

(** Where a tick can lead, branch by branch. *)
Lemma tick_outcome_states (vs : VisionSystem) (t : Tick) (r r' : Robot) :
  tick_outcome vs t r r' ->
  (current_state r' = current_state r /\
   previous_state r' = previous_state r /\
   state_start_time r' = state_start_time r) \/
  (previous_state r' = Some (current_state r) /\
   state_start_time r' = clock_change t /\
   current_state r <> IDLE /\
   (current_state r' = successor (current_state r) \/
    current_state r' = FIND_BLOCK /\
    state_timeout < clock_check t - state_start_time r)).
Proof.
  intros Hout. destruct Hout as
    [Hst Hlate | Hst Hd | block rest error direction Hst Hd He Herr
    | block rest error direction Hst Hd He Herr | held Hst Hc
    | held Hst Hc Hd | held sheet rest error direction Hst Hc Hd He Herr
    | held sheet rest error direction Hst Hc Hd He Herr Hdist
    | held sheet rest error direction Hst Hc Hd He Herr Hdist
    | held sheet rest error direction Hst Hc Hd He Herr Hdist
    | held Hst Hc | Hst];
    try (destruct (search_step_effect r) as (H1 & H2 & _ & _ & H5 & _);
         left; now rewrite H1, H2, H5);
    try (left; cbn; now auto);
    right; cbn; rewrite ?Hst; cbn;
    (repeat split; [assumption || discriminate | auto]).
Qed.

(** ** Invariants of the main loop *)

(** X6. In every reachable state the search-attempt counter lies between 0
    and the bound of 20: the step that would take it to 21 sets it to 0
    instead. *)
Theorem search_attempts_bounded (vs : VisionSystem) (r : Robot) :
  reachable vs r -> (0 <= search_attempts r <= max_search_attempts)%Z.
Proof.
  revert r.
  refine (@reachable_outcome_ind vs
            (fun r => (0 <= search_attempts r <= max_search_attempts)%Z)
            _ _ _); unfold max_search_attempts.
  - intros now. cbn. lia.
  - intros t r r' _ IH Hout.
    destruct Hout;
      try (destruct (search_step_effect r)
             as (_ & _ & _ & _ & _ & es & _ & Hes);
           unfold max_search_attempts in Hes;
           destruct Hes as [(? & -> & _) | (? & -> & _)]; lia);
      cbn; lia.
  - intros now k r IH.
    destruct (handle_key_cases now k r) as [-> | [-> | ->]]; cbn; lia.
Qed.

Lemma search_attempts_bounded_witness :
  (0 <= search_attempts searching <= max_search_attempts)%Z.
Proof. exact (search_attempts_bounded searching_reachable). Defined.

(** X7. In every reachable state, the trace of actuator calls consists of
    complete actions only: each motion command is followed by its sleep and
    the stop command.  [blocks_processed] is the number of "go" commands
    sent; the number of "rel" commands never exceeds it, and is strictly
    smaller while the state is [ALIGN_TO_TARGET_SHEET] or [DROP_BLOCK]. *)
Theorem actuator_trace_invariant (vs : VisionSystem) (r : Robot) :
  reachable vs r ->
  settled (trace r) /\
  blocks_processed r = Z.of_nat (count_sent "go" (trace r)) /\
  (count_sent "rel" (trace r) <= count_sent "go" (trace r))%nat /\
  (current_state r = ALIGN_TO_TARGET_SHEET \/ current_state r = DROP_BLOCK ->
   (count_sent "rel" (trace r) < count_sent "go" (trace r))%nat).
Proof.
  revert r.
  refine (@reachable_outcome_ind vs
            (fun r =>
               settled (trace r) /\
               blocks_processed r = Z.of_nat (count_sent "go" (trace r)) /\
               (count_sent "rel" (trace r)
                <= count_sent "go" (trace r))%nat /\
               (current_state r = ALIGN_TO_TARGET_SHEET \/
                current_state r = DROP_BLOCK ->
                (count_sent "rel" (trace r)
                 < count_sent "go" (trace r))%nat))
            _ _ _).
  - intros now. cbn. repeat split; try settle; try lia.
    intros [H | H]; discriminate.
  - intros t r r' _ (IHs & IHb & IHle & IHlt) Hout.
    pose proof (tick_outcome_states Hout) as Hstates.
    destruct (tick_outcome_events Hout)
      as (es & Ht & Hs & _ & _ & Hb & Hgo & Hrel).
    rewrite Ht, !count_sent_app.
    split; [now apply settled_app|].
    split; [rewrite Hb, IHb; lia|].
    destruct Hgo as [[Hgo Hal] | (Hgo & Hrel0 & Hg & Ha)].
    + destruct Hrel as [[Hrel Hid] | (Hrel & _ & Hd & Hi)];
        rewrite Hgo, Hrel.
      * split; [lia|]. intros Hst.
        assert (Hst0 : current_state r = ALIGN_TO_TARGET_SHEET \/
                       current_state r = DROP_BLOCK).
        { destruct Hst as [E | E]; [left; auto|].
          destruct Hstates as [(E' & _) | (_ & _ & _ & [E' | [E' _]])];
            rewrite E in E'; [right; congruence | | discriminate].
          destruct (current_state r); try discriminate. now left. }
        specialize (IHlt Hst0). lia.
      * assert (Hlt : (count_sent "rel" (trace r)
                       < count_sent "go" (trace r))%nat)
          by (apply IHlt; now right).
        split; [lia|]. rewrite Hi. intros [E | E]; discriminate.
    + rewrite Hgo, Hrel0. split; lia.
  - intros now k r (IHs & IHb & IHle & IHlt).
    destruct (handle_key_cases now k r) as [-> | [-> | ->]]; cbn;
      repeat split; auto; intros [E | E]; discriminate.
Qed.

Lemma actuator_trace_invariant_witness :
  settled (trace dropping) /\
  (count_sent "rel" (trace dropping) < count_sent "go" (trace dropping))%nat.
Proof.
  destruct (actuator_trace_invariant dropping_reachable)
    as (Hs & _ & _ & Hlt).
  split; [exact Hs | apply Hlt; now right].
Defined.

(** X8. A tick adds to the trace, and never removes from it; what it adds
    is at most one complete action: no more than two commands (a start and
    its stop), with at most 4 seconds spent sleeping in all. *)
Theorem tick_is_one_bounded_action (vs : VisionSystem) (t : Tick)
    (r r' : Robot) :
  run_state_machine vs t r = Ok r' ->
  exists es,
    trace r' = trace r ++ es /\
    settled es /\
    (sends es <= 2)%nat /\
    0 <= blocking_time es <= 4.
Proof.
  intros Hrun. apply run_state_machine_outcome in Hrun.
  destruct (tick_outcome_events Hrun) as (es & Ht & Hs & Hn & Hbt & _).
  eauto.
Qed.

Lemma tick_is_one_bounded_action_witness :
  exists es,
    trace turning = trace (init 0) ++ es /\
    settled es /\ (sends es <= 2)%nat /\ 0 <= blocking_time es <= 4.
Proof.
  apply (@tick_is_one_bounded_action default_vision
           (tick off_centre_frame 1 2) (init 0) turning).
  vm_compute. reflexivity.
Defined.

(** X9. A tick either leaves the state, the previous state and the entry
    time as they are, or it enters a state: the previous state is then the
    one just left, the entry time is the clock reading of the change, the
    state left is not [IDLE], and the state entered is the next one on the
    round or, after a timeout, [FIND_BLOCK].  In particular [IDLE] is only
    entered from [DROP_BLOCK]. *)
Theorem tick_transitions (vs : VisionSystem) (t : Tick) (r r' : Robot) :
  run_state_machine vs t r = Ok r' ->
  ((current_state r' = current_state r /\
    previous_state r' = previous_state r /\
    state_start_time r' = state_start_time r) \/
   (previous_state r' = Some (current_state r) /\
    state_start_time r' = clock_change t /\
    current_state r <> IDLE /\
    (current_state r' = successor (current_state r) \/
     current_state r' = FIND_BLOCK /\
     state_timeout < clock_check t - state_start_time r))) /\
  (current_state r' = IDLE ->
   current_state r = IDLE \/ current_state r = DROP_BLOCK).
Proof.
  intros Hrun. apply run_state_machine_outcome in Hrun.
  pose proof (tick_outcome_states Hrun) as Hstates.
  split; [exact Hstates|]. intros E.
  destruct Hstates as [(E' & _) | (_ & _ & _ & [E' | [E' _]])];
    rewrite E in E'; [left; congruence | | discriminate].
  destruct (current_state r); try discriminate; auto.
Qed.

Lemma tick_transitions_witness :
  previous_state gave_up = Some (current_state grabbing) /\
  state_start_time gave_up = 34.
Proof.
  destruct (proj1 (@tick_transitions default_vision (tick sample_frame 33 34)
                     grabbing gave_up eq_refl))
    as [(E & _) | (Hp & Hs & _)]; [discriminate E|].
  split; [exact Hp | exact Hs].
Defined.

(** ** The main loop does not raise *)

Lemma first_block_known (vs : VisionSystem) (frame : Frame)
    (colors : list string) (block : DetectedObject)
    (rest : list DetectedObject) :
  detect_small_blocks vs frame colors = Ok (block :: rest) ->
  In (color block) colors /\
  Forall (fun obj => area obj <= area block) rest.
Proof.
  unfold detect_small_blocks. intros H.
  destruct (forallb (color_supported vs) colors) eqn:Hsup.
  - destruct (detect_loop_meets_spec vs (block_min_area vs)
                (block_max_area vs) (block_aspect_ratio_range vs) frame
                colors Hsup) as (objs & Hd & _ & Hall).
    rewrite Hd in H. cbn [bind] in H. injection H as H.
    pose proof (sort_by_area_desc_perm objs) as Hperm.
    pose proof (sort_by_area_desc_sorted objs) as Hsorted.
    rewrite H in Hperm, Hsorted. split.
    + rewrite Forall_forall in Hall.
      apply (Hall block).
      apply (Permutation_in _ (Permutation_sym Hperm)). now left.
    + now inversion Hsorted.
  - rewrite detect_loop_unsupported in H by exact Hsup. discriminate.
Qed.

Lemma reachable_color_known (vs : VisionSystem) (r : Robot) :
  reachable vs r -> color_known r.
Proof.
  revert r. refine (@reachable_outcome_ind vs color_known _ _ _).
  - intros now. exact I.
  - intros t r r' _ IH Hout. unfold color_known in *.
    destruct Hout;
      try (destruct (search_step_effect r) as (_ & _ & -> & _); exact IH);
      cbn [current_block_color change_state emit set_current_block_color
           set_search_attempts set_blocks_processed];
      try exact IH; try exact I;
      match goal with
      | Hd : detect_small_blocks _ _ _ = Ok (_ :: _) |- _ =>
          exact (proj1 (@first_block_known _ _ _ _ _ Hd))
      end.
  - intros now k r IH. unfold color_known in *.
    destruct (handle_key_cases now k r) as [-> | [-> | ->]];
      cbn [current_block_color change_state set_current_block_color]; auto.
Qed.

Lemma block_colors_supported (vs : VisionSystem) (c : string) :
  forallb (color_supported vs) default_sheet_colors = true ->
  In c default_block_colors ->
  color_supported vs c = true /\
  forallb (color_supported vs) default_block_colors = true.
Proof.
  cbn. rewrite !andb_true_iff.
  intros (_ & Hr & Hy & Hb & _) [<- | [<- | [<- | []]]]; auto.
Qed.

Lemma run_state_machine_total (vs : VisionSystem) (t : Tick) (r : Robot) :
  forallb (color_supported vs) default_sheet_colors = true ->
  color_inv r -> color_known r ->
  exists r', run_state_machine vs t r = Ok r'.
Proof.
  intros Hsup Hinv Hknown. unfold run_state_machine.
  destruct (negb (RobotState_eqb (current_state r) IDLE)
            && check_timeout (clock_check t) r); [eauto|].
  unfold color_inv, color_known in *.
  destruct (current_state r).
  - unfold state_find_block, detect_small_blocks.
    rewrite detect_loop_concat
      by (apply (@block_colors_supported vs "red" Hsup); now left).
    cbn [bind].
    destruct (sort_by_area_desc _) as [|block rest].
    + destruct (search_step r) as [r1 [|]]; cbn; eauto.
    + destruct (calculate_alignment_error vs block) as [error direction].
      destruct (Z.abs error >? alignment_tolerance)%Z; cbn; eauto.
  - unfold state_grab_block.
    destruct (current_block_color r); [cbn; eauto | contradiction].
  - unfold state_align_to_target_sheet.
    destruct (current_block_color r) as [held|]; [|contradiction].
    unfold detect_sheets.
    rewrite detect_loop_concat
      by (cbn; now rewrite (proj1 (@block_colors_supported vs held Hsup
                                     Hknown))).
    cbn [bind].
    destruct (sort_by_area_desc _) as [|sheet rest].
    + destruct (search_step r) as [r1 [|]]; cbn; eauto.
    + destruct (calculate_alignment_error vs sheet) as [error direction].
      destruct (@estimate_distance_cases sheet 20000 eq_refl)
        as [[E _] | [[E _] | [E _]]]; rewrite E; cbn [bind];
        destruct (Z.abs error >? alignment_tolerance)%Z; cbn; eauto.
  - unfold state_drop_block.
    destruct (current_block_color r); [cbn; eauto | contradiction].
  - cbn. eauto.
Qed.

(** X10. With the four colours of the default lists configured, the body of
    the main loop never raises from a reachable state, whatever the frame,
    the clock and the key: the held colour is always one that was detected,
    hence configured, and a colour is held whenever a state needs it. *)
Theorem loop_iteration_never_raises (vs : VisionSystem) (t : Tick)
    (now_key : Q) (k : Key) (r : Robot) :
  forallb (color_supported vs) default_sheet_colors = true ->
  reachable vs r ->
  exists r', loop_iteration vs t now_key k r = Ok r'.
Proof.
  intros Hsup Hreach. unfold loop_iteration.
  unfold detect_small_blocks at 1.
  rewrite detect_loop_concat
    by (apply (@block_colors_supported vs "red" Hsup); now left).
  cbn [bind]. unfold detect_sheets at 1.
  rewrite detect_loop_concat by exact Hsup. cbn [bind].
  destruct (@run_state_machine_total vs t r Hsup
              (reachable_color_inv Hreach) (reachable_color_known Hreach))
    as (r' & Hrun).
  rewrite Hrun. cbn [bind]. eauto.
Qed.

Lemma loop_iteration_never_raises_witness :
  exists r',
    loop_iteration default_vision (tick sample_frame 11 13) 14 key_c dropping
    = Ok r'.
Proof.
  exact (@loop_iteration_never_raises default_vision
           (tick sample_frame 11 13) 14 key_c dropping eq_refl
           dropping_reachable).
Defined.

(** ** Ticks that are not timed out *)

Lemma not_timed_out (t : Tick) (r : Robot) :
  clock_check t - state_start_time r <= state_timeout ->
  check_timeout (clock_check t) r = false.
Proof. intros H. now apply Qgtb_le. Qed.

(** Each branch of [tick_outcome], timeout apart, is what the tick does when
    the state has not timed out. *)
Lemma tick_outcome_run (vs : VisionSystem) (t : Tick) (r r' : Robot) :
  tick_outcome vs t r r' ->
  check_timeout (clock_check t) r = false ->
  run_state_machine vs t r = Ok r'.
Proof.
  intros Hout Hnt. unfold run_state_machine. rewrite Hnt, andb_false_r.
  destruct Hout as
    [Hst Hlate | Hst Hd | block rest error direction Hst Hd He Herr
    | block rest error direction Hst Hd He Herr | held Hst Hc
    | held Hst Hc Hd | held sheet rest error direction Hst Hc Hd He Herr
    | held sheet rest error direction Hst Hc Hd He Herr Hdist
    | held sheet rest error direction Hst Hc Hd He Herr Hdist
    | held sheet rest error direction Hst Hc Hd He Herr Hdist
    | held Hst Hc | Hst];
    try rewrite Hst.
  - apply Qgtb_gt in Hlate. unfold check_timeout in Hnt. congruence.
  - unfold state_find_block. rewrite Hd. cbn [bind].
    destruct (search_step_cases r) as (Hs & _).
    destruct (search_step r) as [r1 b]. cbn [snd] in Hs. now subst b.
  - unfold state_find_block. rewrite Hd. cbn [bind]. rewrite He.
    apply Z.gtb_lt in Herr. now rewrite Herr.
  - unfold state_find_block. rewrite Hd. cbn [bind]. rewrite He.
    rewrite Z.gtb_ltb. apply Z.ltb_ge in Herr. now rewrite Herr.
  - unfold state_grab_block. now rewrite Hc.
  - unfold state_align_to_target_sheet. rewrite Hc, Hd. cbn [bind].
    destruct (search_step_cases r) as (Hs & _).
    destruct (search_step r) as [r1 b]. cbn [snd] in Hs. now subst b.
  - unfold state_align_to_target_sheet. rewrite Hc, Hd. cbn [bind].
    rewrite He.
    destruct (@estimate_distance_cases sheet 20000 eq_refl)
      as [[E _] | [[E _] | [E _]]]; rewrite E; cbn [bind];
      apply Z.gtb_lt in Herr; now rewrite Herr.
  - unfold state_align_to_target_sheet. rewrite Hc, Hd. cbn [bind].
    rewrite He, Hdist. cbn [bind].
    rewrite Z.gtb_ltb. apply Z.ltb_ge in Herr. now rewrite Herr.
  - unfold state_align_to_target_sheet. rewrite Hc, Hd. cbn [bind].
    rewrite He, Hdist. cbn [bind].
    rewrite Z.gtb_ltb. apply Z.ltb_ge in Herr. now rewrite Herr.
  - unfold state_align_to_target_sheet. rewrite Hc, Hd. cbn [bind].
    rewrite He, Hdist. cbn [bind].
    rewrite Z.gtb_ltb. apply Z.ltb_ge in Herr. now rewrite Herr.
  - unfold state_drop_block. now rewrite Hc.
  - reflexivity.
Qed.

Lemma alignment_error_value (vs : VisionSystem) (obj : DetectedObject) :
  exists direction,
    calculate_alignment_error vs obj
    = ((center_x obj - frame_center_x vs)%Z, direction) /\
    ((center_threshold <= center_x obj - frame_center_x vs)%Z ->
     direction = right) /\
    ((center_x obj - frame_center_x vs <= - center_threshold)%Z ->
     direction = left).
Proof.
  unfold calculate_alignment_error, center_threshold.
  destruct (Z.ltb_spec (Z.abs (center_x obj - frame_center_x vs)) 30);
    [|destruct (Z.gtb_spec (center_x obj - frame_center_x vs) 0)];
    eexists; (split; [reflexivity|]); split; intros; auto; lia.
Qed.

(** X11. A [FIND_BLOCK] tick that is not timed out ends in [GRAB_BLOCK]
    exactly when a block is detected and the first one lies within the
    alignment tolerance of 40 pixels of the frame centre; otherwise it stays
    in [FIND_BLOCK].  When it moves on, nothing was sent to the car, the
    search counter is 0, and the colour recorded is that of the first block,
    which no other detected block exceeds in area. *)
Theorem find_block_tick (vs : VisionSystem) (t : Tick) (r : Robot)
    (blocks : list DetectedObject) :
  current_state r = FIND_BLOCK ->
  clock_check t - state_start_time r <= state_timeout ->
  detect_small_blocks vs (frame t) default_block_colors = Ok blocks ->
  exists r',
    run_state_machine vs t r = Ok r' /\
    (current_state r' = GRAB_BLOCK \/ current_state r' = FIND_BLOCK) /\
    (current_state r' = GRAB_BLOCK <->
     exists block rest,
       blocks = block :: rest /\
       (Z.abs (center_x block - frame_center_x vs)
        <= alignment_tolerance)%Z) /\
    (current_state r' = GRAB_BLOCK ->
     trace r' = trace r /\
     search_attempts r' = 0%Z /\
     exists block rest,
       blocks = block :: rest /\
       current_block_color r' = Some (color block) /\
       Forall (fun obj => area obj <= area block) rest).
Proof.
  intros Hst Hfresh Hd. apply not_timed_out in Hfresh.
  destruct blocks as [|block rest].
  - exists (fst (search_step r)).
    split; [apply tick_outcome_run; [now apply out_find_miss | exact Hfresh]|].
    destruct (search_step_effect r) as (-> & _). rewrite Hst.
    split; [now right|].
    split; [|discriminate].
    split; [discriminate | intros (b & l & E & _); discriminate].
  - destruct (alignment_error_value vs block) as (direction & He & _).
    destruct (Z_le_gt_dec
                (Z.abs (center_x block - frame_center_x vs))
                alignment_tolerance) as [Hle | Hgt].
    + eexists.
      split; [apply tick_outcome_run;
              [eapply out_find_done; eauto | exact Hfresh]|].
      cbn. split; [now left|]. split; [split; eauto|].
      intros _. repeat split. exists block, rest.
      repeat split. exact (proj2 (@first_block_known _ _ _ _ _ Hd)).
    + eexists.
      split; [apply tick_outcome_run;
              [eapply out_find_turn; eauto; lia | exact Hfresh]|].
      cbn. rewrite Hst. split; [now right|].
      split; [|discriminate].
      split; [discriminate|].
      intros (b & l & E & Hb). injection E as <- <-. lia.
Qed.

Lemma find_block_tick_witness :
  exists r',
    run_state_machine default_vision (tick sample_frame 1 2) (init 0)
    = Ok r' /\
    current_state r' = GRAB_BLOCK.
Proof.
  destruct (@find_block_tick default_vision (tick sample_frame 1 2) (init 0)
              (sort_by_area_desc
                 (flat_map (fun c => extracted (sample_frame c) c 300 5000
                                       (5 # 10, 2)) default_block_colors)))
    as (r' & Hrun & _ & Hiff & _).
  - reflexivity.
  - discriminate.
  - vm_compute. reflexivity.
  - exists r'. split; [exact Hrun|]. apply Hiff.
    eexists. eexists. split; [vm_compute; reflexivity|].
    vm_compute. discriminate.
Defined.

Lemma distance_by_area (sheet : DetectedObject) :
  (estimate_distance sheet 20000 = Ok too_close /\ 30000 < area sheet) \/
  (estimate_distance sheet 20000 = Ok too_far /\ area sheet < 10000) \/
  (estimate_distance sheet 20000 = Ok good /\
   10000 <= area sheet <= 30000).
Proof.
  assert (Hr : area sheet / 20000 == area sheet * (1 # 20000))
    by reflexivity.
  destruct (@estimate_distance_cases sheet 20000 eq_refl)
    as [[E H] | [[E H] | [E H]]]; cbv zeta in H; rewrite Hr in H;
    [left | right; left | right; right]; (split; [exact E | lra]).
Qed.

(** X12. An [ALIGN_TO_TARGET_SHEET] tick that is not timed out looks for
    sheets of the held colour only and keeps that colour.  It ends in
    [DROP_BLOCK] exactly when a sheet is detected, the first one lies within
    40 pixels of the frame centre and its area is between 10000 and 30000;
    nothing is then sent to the car.  An aligned sheet of smaller area gets
    one forward pulse of 0.4 s, one of larger area a backward pulse of
    0.3 s, and the state stays. *)
Theorem align_to_target_sheet_tick (vs : VisionSystem) (t : Tick)
    (r : Robot) (held : string) (sheets : list DetectedObject) :
  current_state r = ALIGN_TO_TARGET_SHEET ->
  current_block_color r = Some held ->
  clock_check t - state_start_time r <= state_timeout ->
  detect_sheets vs (frame t) [held] = Ok sheets ->
  exists r',
    run_state_machine vs t r = Ok r' /\
    (current_state r' = DROP_BLOCK \/
     current_state r' = ALIGN_TO_TARGET_SHEET) /\
    current_block_color r' = Some held /\
    (current_state r' = DROP_BLOCK <->
     exists sheet rest,
       sheets = sheet :: rest /\
       (Z.abs (center_x sheet - frame_center_x vs)
        <= alignment_tolerance)%Z /\
       10000 <= area sheet <= 30000) /\
    (current_state r' = DROP_BLOCK ->
     trace r' = trace r /\ search_attempts r' = 0%Z) /\
    (forall sheet rest,
       sheets = sheet :: rest ->
       (Z.abs (center_x sheet - frame_center_x vs)
        <= alignment_tolerance)%Z ->
       (area sheet < 10000 ->
        trace r' = trace r ++ [Car.Send "A"; Car.Sleep (4 # 10);
                               Car.Send "S"; Car.Sleep (1 # 10);
                               Car.Sleep (2 # 10)]) /\
       (30000 < area sheet ->
        trace r' = trace r ++ [Car.Send "B"; Car.Sleep (3 # 10);
                               Car.Send "S"; Car.Sleep (1 # 10);
                               Car.Sleep (2 # 10)])).
Proof.
  intros Hst Hc Hfresh Hd. apply not_timed_out in Hfresh.
  destruct sheets as [|sheet rest].
  - exists (fst (search_step r)).
    split; [apply tick_outcome_run;
            [eapply out_align_miss; eauto | exact Hfresh]|].
    destruct (search_step_effect r) as (-> & _ & -> & _). rewrite Hst.
    split; [now right|]. split; [exact Hc|].
    split; [split; [discriminate
                   | intros (b & l & E & _); discriminate]|].
    split; [discriminate|]. intros b l E. discriminate.
  - destruct (alignment_error_value vs sheet) as (direction & He & _).
    destruct (Z_le_gt_dec
                (Z.abs (center_x sheet - frame_center_x vs))
                alignment_tolerance) as [Hle | Hgt].
    + destruct (distance_by_area sheet)
        as [[E Ha] | [[E Ha] | [E Ha]]].
      * eexists.
        split; [apply tick_outcome_run;
                [eapply out_align_backward; eauto | exact Hfresh]|].
        cbn. rewrite Hst. split; [now right|]. split; [exact Hc|].
        split; [split; [discriminate|]|].
        { intros (b & l & Eq & _ & Hb). injection Eq as <- <-. lra. }
        split; [discriminate|].
        intros b l Eq _. injection Eq as <- <-.
        split; [intros; lra | intros _; now rewrite <- app_assoc].
      * eexists.
        split; [apply tick_outcome_run;
                [eapply out_align_forward; eauto | exact Hfresh]|].
        cbn. rewrite Hst. split; [now right|]. split; [exact Hc|].
        split; [split; [discriminate|]|].
        { intros (b & l & Eq & _ & Hb). injection Eq as <- <-. lra. }
        split; [discriminate|].
        intros b l Eq _. injection Eq as <- <-.
        split; [intros _; now rewrite <- app_assoc | intros; lra].
      * eexists.
        split; [apply tick_outcome_run;
                [eapply out_align_done; eauto | exact Hfresh]|].
        cbn. split; [now left|]. split; [exact Hc|].
        split; [split; eauto|].
        split; [auto|].
        intros b l Eq _. injection Eq as <- <-. split; intros; lra.
    + eexists.
      split; [apply tick_outcome_run;
              [eapply out_align_turn; eauto; lia | exact Hfresh]|].
      cbn. rewrite Hst. split; [now right|]. split; [exact Hc|].
      split; [split; [discriminate|]|].
      { intros (b & l & Eq & Hb & _). injection Eq as <- <-. lia. }
      split; [discriminate|].
      intros b l Eq Hb. injection Eq as <- <-. lia.
Qed.

Lemma align_to_target_sheet_tick_witness :
  exists r',
    run_state_machine default_vision (tick sample_frame 9 10)
      (change_state 8 ALIGN_TO_TARGET_SHEET
         (set_blocks_processed 1 (emit Car.grab_block grabbing)))
    = Ok r' /\
    current_state r' = DROP_BLOCK.
Proof.
  destruct (@align_to_target_sheet_tick default_vision
              (tick sample_frame 9 10)
              (change_state 8 ALIGN_TO_TARGET_SHEET
                 (set_blocks_processed 1 (emit Car.grab_block grabbing)))
              "red"
              (extracted (sample_frame "red") "red" 8000 100000
                 (3 # 10, 9 # 10)))
    as (r' & Hrun & _ & _ & Hiff & _).
  - reflexivity.
  - reflexivity.
  - discriminate.
  - vm_compute. reflexivity.
  - exists r'. split; [exact Hrun|]. apply Hiff.
    eexists. eexists. split; [vm_compute; reflexivity|].
    split; [vm_compute; discriminate|].
    split; vm_compute; discriminate.
Defined.

(** X13. A [FIND_BLOCK] tick that is not timed out and whose first block is
    more than 40 pixels off the frame centre records the block's colour,
    resets the search counter, stays in [FIND_BLOCK] and turns towards the
    block: one pulse, "R" when the block is right of the centre and "L" when
    it is left, lasting more than 0.18 and at most 0.5 seconds, then the
    stop command and 0.3 seconds of sleep.  The [centered] case of
    [align_to_target], in which nothing is sent, does not arise. *)
Theorem find_block_turns_towards_block (vs : VisionSystem) (t : Tick)
    (r : Robot) (block : DetectedObject) (rest : list DetectedObject) :
  current_state r = FIND_BLOCK ->
  clock_check t - state_start_time r <= state_timeout ->
  detect_small_blocks vs (frame t) default_block_colors
  = Ok (block :: rest) ->
  (alignment_tolerance < Z.abs (center_x block - frame_center_x vs))%Z ->
  exists r' turn_time,
    run_state_machine vs t r = Ok r' /\
    current_state r' = FIND_BLOCK /\
    current_block_color r' = Some (color block) /\
    search_attempts r' = 0%Z /\
    trace r'
    = trace r
      ++ [Car.Send (if (0 <? center_x block - frame_center_x vs)%Z
                    then "R" else "L");
          Car.Sleep turn_time; Car.Send "S"; Car.Sleep (1 # 10);
          Car.Sleep (2 # 10)] /\
    18 # 100 < turn_time <= 5 # 10.
Proof.
  intros Hst Hfresh Hd Hoff. apply not_timed_out in Hfresh.
  unfold alignment_tolerance in Hoff.
  destruct (alignment_error_value vs block) as (direction & He & Hr & Hl).
  unfold center_threshold in Hr, Hl.
  set (error := (center_x block - frame_center_x vs)%Z) in *.
  eexists. exists (Qmin ((1 # 10) + inject_Z (Z.abs error) / 500) (5 # 10)).
  split; [apply tick_outcome_run;
          [eapply out_find_turn; eauto | exact Hfresh]|].
  cbn [current_state current_block_color search_attempts trace emit
       set_current_block_color set_search_attempts].
  split; [exact Hst|]. split; [reflexivity|]. split; [reflexivity|].
  split.
  - rewrite <- app_assoc. f_equal.
    destruct (Z.ltb_spec 0 error) as [Hpos | Hneg].
    + rewrite Hr by lia. reflexivity.
    + rewrite Hl by lia. reflexivity.
  - destruct (turn_time_bounds error) as ([_ Hhi] & Hsmall & Hbig).
    cbv zeta in *. split; [|exact Hhi].
    destruct (Z.lt_ge_cases (Z.abs error) 200) as [H | H].
    + rewrite (Hsmall H), scaled_error.
      assert (Hq : inject_Z 40 < inject_Z (Z.abs error))
        by (now rewrite <- Zlt_Qlt).
      change (inject_Z 40) with 40 in Hq. lra.
    + rewrite (Hbig H). reflexivity.
Qed.

Lemma find_block_turns_towards_block_witness :
  exists r' turn_time,
    run_state_machine default_vision (tick off_centre_frame 1 2) (init 0)
    = Ok r' /\
    trace r'
    = trace (init 0)
      ++ [Car.Send "R"; Car.Sleep turn_time; Car.Send "S";
          Car.Sleep (1 # 10); Car.Sleep (2 # 10)].
Proof.
  destruct (@find_block_turns_towards_block default_vision
              (tick off_centre_frame 1 2) (init 0)
              {| color := "blue"; center_x := 500; center_y := 200;
                 area := 650; bbox := (488, 187, 25, 26)%Z;
                 aspect_ratio := inject_Z 25 / inject_Z 26 |} [])
    as (r' & turn_time & Hrun & _ & _ & _ & Ht & _).
  - reflexivity.
  - discriminate.
  - vm_compute. reflexivity.
  - reflexivity.
  - exists r', turn_time. split; [exact Hrun | exact Ht].
Defined.

(** ** Several ticks *)

(** X14. Over consecutive [FIND_BLOCK] ticks that detect nothing and are not
    timed out, the search counter counts modulo 21: after [n] such ticks
    from a counter [c] between 0 and 20 it is [(c + n) mod 21], so the reset
    to 0 comes with the 21st miss and every 21 misses after it.  The robot
    stays in [FIND_BLOCK] and its held colour, counter of blocks and entry
    time are untouched. *)
Theorem consecutive_misses (vs : VisionSystem) (ts : list Tick)
    (r : Robot) :
  current_state r = FIND_BLOCK ->
  (0 <= search_attempts r <= max_search_attempts)%Z ->
  Forall (fun t =>
            detect_small_blocks vs (frame t) default_block_colors = Ok [] /\
            clock_check t - state_start_time r <= state_timeout) ts ->
  exists r',
    run_ticks vs ts r = Ok r' /\
    current_state r' = FIND_BLOCK /\
    search_attempts r'
    = ((search_attempts r + Z.of_nat (List.length ts)) mod 21)%Z /\
    current_block_color r' = current_block_color r /\
    blocks_processed r' = blocks_processed r /\
    state_start_time r' = state_start_time r.
Proof.
  unfold max_search_attempts. revert r.
  induction ts as [|t ts IH]; intros r Hst Hsa Hall.
  - exists r. cbn [run_ticks List.length Z.of_nat].
    rewrite Z.add_0_r, Z.mod_small by lia. repeat split. exact Hst.
  - inversion Hall as [|t0 ts0 [Hd Hfresh] Hrest]; subst t0 ts0.
    apply not_timed_out in Hfresh.
    assert (Hrun : run_state_machine vs t r = Ok (fst (search_step r)))
      by (apply tick_outcome_run; [now apply out_find_miss | exact Hfresh]).
    destruct (search_step_effect r)
      as (H1 & _ & H3 & H4 & H5 & es & _ & Hes).
    unfold max_search_attempts in Hes.
    assert (Hnext : search_attempts (fst (search_step r))
                    = ((search_attempts r + 1) mod 21)%Z).
    { destruct Hes as [(Hlt & -> & _) | (Hge & -> & _)].
      - now rewrite Z.mod_small by lia.
      - replace (search_attempts r) with 20%Z by lia. reflexivity. }
    destruct (IH (fst (search_step r)))
      as (r' & Hr' & Hs' & Hn' & Hc' & Hb' & Ht').
    + now rewrite H1.
    + rewrite Hnext. pose proof (Z.mod_pos_bound (search_attempts r + 1) 21).
      lia.
    + rewrite H5. exact Hrest.
    + exists r'. cbn [run_ticks]. rewrite Hrun. cbn [bind].
      split; [exact Hr'|]. split; [exact Hs'|].
      split; [|rewrite Hc', Hb', Ht', H3, H4, H5; auto].
      rewrite Hn', Hnext, Zplus_mod_idemp_l. f_equal.
      cbn [List.length]. lia.
Qed.

Lemma consecutive_misses_witness :
  exists r',
    run_ticks default_vision (repeat (tick empty_frame 1 2) 21) (init 0)
    = Ok r' /\
    search_attempts r' = 0%Z.
Proof.
  destruct (@consecutive_misses default_vision
              (repeat (tick empty_frame 1 2) 21) (init 0))
    as (r' & Hrun & _ & Hn & _).
  - reflexivity.
  - cbn. unfold max_search_attempts. lia.
  - apply Forall_forall. intros t Ht. apply repeat_spec in Ht. subst t.
    split; [reflexivity | discriminate].
  - exists r'. split; [exact Hrun | exact Hn].
Defined.

(** X15. One block is picked and placed in four ticks when none is timed
    out: a first block within tolerance on the first tick, and on the third
    tick a first sheet of that block's colour within tolerance and of area
    between 10000 and 30000.  The robot ends in [IDLE] with no colour held,
    the search counter at 0 and one more block processed, and what was sent
    to the car is the grab sequence followed by the release sequence, with
    no motion command in between. *)
Theorem pick_and_place_round (vs : VisionSystem) (t1 t2 t3 t4 : Tick)
    (r : Robot) (block sheet : DetectedObject)
    (rest others : list DetectedObject) :
  current_state r = FIND_BLOCK ->
  clock_check t1 - state_start_time r <= state_timeout ->
  clock_check t2 - clock_change t1 <= state_timeout ->
  clock_check t3 - clock_change t2 <= state_timeout ->
  clock_check t4 - clock_change t3 <= state_timeout ->
  detect_small_blocks vs (frame t1) default_block_colors
  = Ok (block :: rest) ->
  (Z.abs (center_x block - frame_center_x vs) <= alignment_tolerance)%Z ->
  detect_sheets vs (frame t3) [color block] = Ok (sheet :: others) ->
  (Z.abs (center_x sheet - frame_center_x vs) <= alignment_tolerance)%Z ->
  10000 <= area sheet <= 30000 ->
  exists r',
    run_ticks vs [t1; t2; t3; t4] r = Ok r' /\
    current_state r' = IDLE /\
    previous_state r' = Some DROP_BLOCK /\
    state_start_time r' = clock_change t4 /\
    current_block_color r' = None /\
    search_attempts r' = 0%Z /\
    blocks_processed r' = (blocks_processed r + 1)%Z /\
    trace r'
    = trace r ++ [Car.Send "go"; Car.Sleep 4;
                  Car.Send "rel"; Car.Sleep (15 # 10)].
Proof.
  intros Hst H1 H2 H3 H4 Hdb Hb Hds Hs Hgood.
  destruct (alignment_error_value vs block) as (db & Heb & _).
  destruct (alignment_error_value vs sheet) as (ds & Hes & _).
  assert (Hdist : estimate_distance sheet 20000 = Ok good).
  { destruct (distance_by_area sheet) as [[_ Ha] | [[_ Ha] | [E _]]];
      [lra | lra | exact E]. }
  set (r1 := change_state (clock_change t1) GRAB_BLOCK
               (set_current_block_color (Some (color block))
                  (set_search_attempts 0 r))).
  set (r2 := change_state (clock_change t2) ALIGN_TO_TARGET_SHEET
               (set_blocks_processed (blocks_processed r1 + 1)
                  (emit Car.grab_block r1))).
  set (r3 := change_state (clock_change t3) DROP_BLOCK
               (set_search_attempts 0 r2)).
  set (r4 := change_state (clock_change t4) IDLE
               (set_current_block_color None
                  (emit Car.release_block r3))).
  assert (E1 : run_state_machine vs t1 r = Ok r1).
  { apply tick_outcome_run; [|now apply not_timed_out].
    eapply out_find_done; eauto. }
  assert (E2 : run_state_machine vs t2 r1 = Ok r2).
  { apply tick_outcome_run; [|now apply not_timed_out].
    now apply (@out_grab vs t2 r1 (color block)). }
  assert (E3 : run_state_machine vs t3 r2 = Ok r3).
  { apply tick_outcome_run; [|now apply not_timed_out].
    eapply (@out_align_done vs t3 r2 (color block)); eauto. }
  assert (E4 : run_state_machine vs t4 r3 = Ok r4).
  { apply tick_outcome_run; [|now apply not_timed_out].
    now apply (@out_drop vs t4 r3 (color block)). }
  exists r4. cbn [run_ticks]. rewrite E1. cbn [bind]. rewrite E2.
  cbn [bind]. rewrite E3. cbn [bind]. rewrite E4. cbn [bind].
  split; [reflexivity|]. cbn. repeat split.
  now rewrite <- app_assoc.
Qed.

Lemma pick_and_place_round_witness :
  exists r',
    run_ticks default_vision
      [tick sample_frame 1 2; tick sample_frame 3 8; tick sample_frame 9 10;
       tick sample_frame 11 13] (init 0) = Ok r' /\
    current_state r' = IDLE /\
    blocks_processed r' = 1%Z.
Proof.
  destruct (@pick_and_place_round default_vision
              (tick sample_frame 1 2) (tick sample_frame 3 8)
              (tick sample_frame 9 10) (tick sample_frame 11 13) (init 0)
              {| color := "red"; center_x := 300; center_y := 200;
                 area := 900; bbox := (285, 185, 30, 30)%Z;
                 aspect_ratio := inject_Z 30 / inject_Z 30 |}
              {| color := "red"; center_x := 300; center_y := 200;
                 area := 12000; bbox := (250, 100, 100, 120)%Z;
                 aspect_ratio := inject_Z 100 / inject_Z 120 |}
              (List.tl (sort_by_area_desc
                          (flat_map
                             (fun c => extracted (sample_frame c) c 300 5000
                                         (5 # 10, 2))
                             default_block_colors)))
              [])
    as (r' & Hrun & Hst & _ & _ & _ & _ & Hb & _);
    try reflexivity; try discriminate;
    try (vm_compute; reflexivity); try (split; discriminate).
  exists r'. auto.
Defined.

(** ** Operator keys *)

(** X16. From a reachable state the key 'c' acts only in [IDLE], where it
    enters [FIND_BLOCK] with no colour held and the counter of blocks
    unchanged; in every other state it changes nothing.  The key 'r' enters
    [FIND_BLOCK] from any state and clears the held colour, but sends
    nothing to the car (in particular no release) and leaves both counters
    as they are. *)
Theorem operator_keys (vs : VisionSystem) (now : Q) (r : Robot) :
  reachable vs r ->
  (current_state r = IDLE ->
   handle_key now key_c r = change_state now FIND_BLOCK r /\
   current_block_color (handle_key now key_c r) = None /\
   blocks_processed (handle_key now key_c r) = blocks_processed r) /\
  (current_state r <> IDLE -> handle_key now key_c r = r) /\
  (current_state (handle_key now key_r r) = FIND_BLOCK /\
   previous_state (handle_key now key_r r) = Some (current_state r) /\
   current_block_color (handle_key now key_r r) = None /\
   trace (handle_key now key_r r) = trace r /\
   blocks_processed (handle_key now key_r r) = blocks_processed r /\
   search_attempts (handle_key now key_r r) = search_attempts r).
Proof.
  intros Hreach. apply reachable_color_inv in Hreach.
  unfold color_inv in Hreach. split; [|split].
  - intros E. rewrite E in Hreach. cbn. rewrite E. cbn. auto.
  - intros Hne. cbn.
    destruct (current_state r); try reflexivity. contradiction.
  - cbn. auto 7.
Qed.

Lemma operator_keys_witness :
  handle_key 5 key_c dropping = dropping /\
  trace (handle_key 5 key_r dropping) = trace dropping.
Proof.
  destruct (@operator_keys default_vision 5 dropping dropping_reachable)
    as (_ & Hc & _ & _ & _ & Ht & _).
  split; [apply Hc; discriminate | exact Ht].
Defined.

(** ** The search counter across state changes *)

Lemma search_attempts_zero_outside_search (vs : VisionSystem) (r : Robot) :
  reachable vs r ->
  current_state r = GRAB_BLOCK \/ current_state r = DROP_BLOCK \/
  current_state r = IDLE ->
  search_attempts r = 0%Z.
Proof.
  revert r.
  refine (@reachable_outcome_ind vs
            (fun r =>
               current_state r = GRAB_BLOCK \/ current_state r = DROP_BLOCK \/
               current_state r = IDLE ->
               search_attempts r = 0%Z) _ _ _).
  - intros now [E | [E | E]]; discriminate.
  - intros t r r' _ IH Hout.
    destruct Hout as
      [Hst Hlate | Hst Hd | block rest error direction Hst Hd He Herr
      | block rest error direction Hst Hd He Herr | held Hst Hc
      | held Hst Hc Hd | held sheet rest error direction Hst Hc Hd He Herr
      | held sheet rest error direction Hst Hc Hd He Herr Hdist
      | held sheet rest error direction Hst Hc Hd He Herr Hdist
      | held sheet rest error direction Hst Hc Hd He Herr Hdist
      | held Hst Hc | Hst];
      try (destruct (search_step_effect r) as (-> & _); rewrite Hst);
      cbn [current_state search_attempts change_state emit
           set_current_block_color set_search_attempts set_blocks_processed];
      rewrite ?Hst;
      try (intros [E | [E | E]]; discriminate);
      try (intros _; reflexivity);
      try (intros _; apply IH; rewrite Hst; tauto).
  - intros now k r IH.
    destruct (handle_key_cases now k r) as [-> | [-> | ->]];
      [exact IH | |]; intros [E | [E | E]]; discriminate.
Qed.

(** C2, amended. The search-attempt counter is reset to 0 by every
    successful detection: a [FIND_BLOCK] or [ALIGN_TO_TARGET_SHEET] step
    whose detection is non-empty ends with the counter at 0.  From a
    reachable state, every state change made by a tick that is not timed
    out enters the next state of the round with the counter at 0 (the
    [GRAB_BLOCK] and [DROP_BLOCK] ticks always make theirs), and so does the
    key 'c' from [IDLE].  Only the forced timeout and the key 'r' enter
    [FIND_BLOCK] with the counter as it was, [change_state] not touching
    it. *)
Theorem search_attempts_on_state_change (vs : VisionSystem) (t : Tick)
    (now : Q) (r : Robot) :
  reachable vs r ->
  (forall block rest,
     detect_small_blocks vs (frame t) default_block_colors
     = Ok (block :: rest) ->
     exists r' done,
       state_find_block vs (frame t) r = Ok (r', done) /\
       search_attempts r' = 0%Z) /\
  (forall held sheet rest,
     current_block_color r = Some held ->
     detect_sheets vs (frame t) [held] = Ok (sheet :: rest) ->
     exists r' done,
       state_align_to_target_sheet vs (frame t) r = Ok (r', done) /\
       search_attempts r' = 0%Z) /\
  (forall r',
     clock_check t - state_start_time r <= state_timeout ->
     run_state_machine vs t r = Ok r' ->
     current_state r' <> current_state r ->
     current_state r' = successor (current_state r) /\
     search_attempts r' = 0%Z) /\
  (clock_check t - state_start_time r <= state_timeout ->
   current_state r = GRAB_BLOCK \/ current_state r = DROP_BLOCK ->
   exists r',
     run_state_machine vs t r = Ok r' /\
     current_state r' = successor (current_state r) /\
     search_attempts r' = 0%Z) /\
  (current_state r = IDLE ->
   current_state (handle_key now key_c r) = FIND_BLOCK /\
   search_attempts (handle_key now key_c r) = 0%Z) /\
  (current_state r <> IDLE ->
   state_timeout < clock_check t - state_start_time r ->
   run_state_machine vs t r
   = Ok (change_state (clock_change t) FIND_BLOCK r) /\
   search_attempts (change_state (clock_change t) FIND_BLOCK r)
   = search_attempts r) /\
  (current_state (handle_key now key_r r) = FIND_BLOCK /\
   search_attempts (handle_key now key_r r) = search_attempts r).
Proof.
  intros Hreach.
  pose proof (search_attempts_zero_outside_search Hreach) as Hzero.
  pose proof (reachable_color_inv Hreach) as Hinv. unfold color_inv in Hinv.
  destruct (detection_resets_search_attempts vs (frame t) r)
    as (Hfind & Halign & _ & _).
  split; [exact Hfind|]. split; [exact Halign|].
  split; [|split; [|split; [|split]]].
  - intros r' Hfresh Hrun Hchange.
    apply run_state_machine_outcome in Hrun.
    destruct Hrun as
      [Hst Hlate | Hst Hd | block rest error direction Hst Hd He Herr
      | block rest error direction Hst Hd He Herr | held Hst Hc
      | held Hst Hc Hd | held sheet rest error direction Hst Hc Hd He Herr
      | held sheet rest error direction Hst Hc Hd He Herr Hdist
      | held sheet rest error direction Hst Hc Hd He Herr Hdist
      | held sheet rest error direction Hst Hc Hd He Herr Hdist
      | held Hst Hc | Hst];
      try (exfalso; apply Hchange;
           destruct (search_step_effect r) as (-> & _); reflexivity);
      try (exfalso; apply Hchange; reflexivity);
      try (exfalso; exact (Qlt_not_le _ _ Hlate Hfresh));
      cbn [current_state search_attempts change_state emit
           set_current_block_color set_search_attempts set_blocks_processed];
      rewrite Hst; (split; [reflexivity|]);
      try reflexivity; apply Hzero; rewrite Hst; tauto.
  - intros Hfresh Hst. apply not_timed_out in Hfresh.
    destruct Hst as [Hst | Hst]; rewrite Hst in Hinv;
      destruct (current_block_color r) as [held|] eqn:Hc;
      try contradiction.
    + eexists.
      split; [apply tick_outcome_run;
              [now apply (@out_grab vs t r held) | exact Hfresh]|].
      cbn [current_state search_attempts change_state emit
           set_blocks_processed].
      rewrite Hst. split; [reflexivity|]. apply Hzero. tauto.
    + eexists.
      split; [apply tick_outcome_run;
              [now apply (@out_drop vs t r held) | exact Hfresh]|].
      cbn [current_state search_attempts change_state emit
           set_current_block_color].
      rewrite Hst. split; [reflexivity|]. apply Hzero. tauto.
  - intros Hst. cbn [handle_key]. rewrite Hst.
    cbn [RobotState_eqb current_state search_attempts change_state].
    split; [reflexivity|]. apply Hzero. tauto.
  - intros Hst Hlate. split; [|reflexivity].
    unfold run_state_machine.
    assert (Hc : check_timeout (clock_check t) r = true)
      by (now apply Qgtb_gt).
    assert (Hn : negb (RobotState_eqb (current_state r) IDLE) = true)
      by (destruct (current_state r); [reflexivity .. | contradiction]).
    now rewrite Hc, Hn.
  - split; reflexivity.
Qed.

Lemma search_attempts_on_state_change_witness :
  exists r',
    run_state_machine default_vision (tick sample_frame 3 8) grabbing
    = Ok r' /\
    current_state r' = ALIGN_TO_TARGET_SHEET /\
    search_attempts r' = 0%Z.
Proof.
  destruct (@search_attempts_on_state_change default_vision
              (tick sample_frame 3 8) 9 grabbing grabbing_reachable)
    as (_ & _ & _ & Hgrab & _).
  apply Hgrab; [discriminate | now left].
Defined.

End RunFacts.
